(** * tesuto: a declarative HTTP test harness

    A shallow embedding of [tesuto.go] (package [tesuto]) and of the
    parts of the Go standard library and of go-cmp that its behaviour
    rests on, followed by the properties of the option pipeline and of
    the executor [testCase.fn].

    Conventions.
    - A Go [string] and the contents of a [[]byte] are sequences of
      bytes: Rocq [string]s.  A [[]byte] that may be [nil] is an
      [option string], with [None] for [nil].
    - A Go [int] is a [Z].
    - A Go [map[string]V] is a [gmap string V].
    - An [error] is represented by the text of its [Error()] method.
    - An interface value that may be [nil] is an [option]. *)

From Stdlib Require Import ZArith Ascii String List.
From stdpp Require Import base option list gmap fin_maps strings pretty sorting.

Local Open Scope Z_scope.
Set Warnings "-register-all".

(** ** Bytes and byte classes *)

Definition byte_between (lo hi c : ascii) : bool :=
  (Ascii.leb lo c && Ascii.leb c hi)%bool.

Definition is_lower (c : ascii) : bool := byte_between "a" "z" c.
Definition is_upper (c : ascii) : bool := byte_between "A" "Z" c.
Definition is_digit (c : ascii) : bool := byte_between "0" "9" c.

(** [toLower = 'a' - 'A'] of net/textproto. *)
Definition toLower : nat := 32.

Definition nl : string := String (ascii_of_nat 10) "".

(** ** net/textproto: canonical header keys *)

Module textproto.

(** [isTokenTable]: the token characters of RFC 7230. *)
Definition validHeaderFieldByte (c : ascii) : bool :=
  (is_lower c || is_upper c || is_digit c
   || bool_decide (c ∈ ["!"; "#"; "$"; "%"; "&"; "'"; "*"; "+"; "-"; ".";
                        "^"; "_"; "`"; "|"; "~"]%char))%bool.

(** The second loop of [canonicalMIMEHeaderKey]: first letter and every
    letter after a dash in upper case, the others in lower case. *)
Fixpoint canon_loop (upper : bool) (a : string) : string :=
  match a with
  | EmptyString => EmptyString
  | String c a' =>
      let c' :=
        if (upper && is_lower c)%bool
        then ascii_of_nat (nat_of_ascii c - toLower)
        else if (negb upper && is_upper c)%bool
             then ascii_of_nat (nat_of_ascii c + toLower)
             else c in
      String c' (canon_loop (Ascii.eqb c' "-") a')
  end.

Fixpoint all_valid (a : string) : bool :=
  match a with
  | EmptyString => true
  | String c a' => (validHeaderFieldByte c && all_valid a')%bool
  end.

(** [canonicalMIMEHeaderKey(a []byte)]: unchanged when some byte is not
    a token character.  (The final [commonHeader] lookup interns the
    result and does not change it.) *)
Definition canonicalMIMEHeaderKey (a : string) : string :=
  if all_valid a then canon_loop true a else a.

(** The quick check of [CanonicalMIMEHeaderKey]: [s] is the whole key,
    [rest] what remains to scan. *)
Fixpoint quick_check (s : string) (upper : bool) (rest : string) : string :=
  match rest with
  | EmptyString => s
  | String c rest' =>
      if negb (validHeaderFieldByte c) then s
      else if (upper && is_lower c)%bool then canonicalMIMEHeaderKey s
      else if (negb upper && is_upper c)%bool then canonicalMIMEHeaderKey s
      else quick_check s (Ascii.eqb c "-") rest'
  end.

Definition CanonicalMIMEHeaderKey (s : string) : string :=
  quick_check s true s.

End textproto.

(** ** net/http: headers *)

(** [http.Header], a [map[string][]string]. *)
Abbreviation Header := (gmap string (list string)).

Module http.

Definition CanonicalHeaderKey (s : string) : string :=
  textproto.CanonicalMIMEHeaderKey s.

(** [h[key]] of a Go map: the zero value ([nil]) for a missing key. *)
Definition values (h : Header) (key : string) : list string :=
  default [] (h !! key).

Definition Header_Add (h : Header) (key value : string) : Header :=
  let key := textproto.CanonicalMIMEHeaderKey key in
  <[key := values h key ++ [value]]> h.

Definition Header_Set (h : Header) (key value : string) : Header :=
  <[textproto.CanonicalMIMEHeaderKey key := [value]]> h.

Definition Header_Get (h : Header) (key : string) : string :=
  match values h (textproto.CanonicalMIMEHeaderKey key) with
  | [] => ""
  | v :: _ => v
  end.

End http.

(** ** net/url: form encoding *)

Module url.

(** [url.Values], a [map[string][]string]. *)
Abbreviation Values := (gmap string (list string)).

(** [shouldEscape(c, encodeQueryComponent)]: only the unreserved
    characters of RFC 3986 are left alone. *)
Definition shouldEscape (c : ascii) : bool :=
  if (is_lower c || is_upper c || is_digit c)%bool then false
  else if bool_decide (c ∈ ["-"; "_"; "."; "~"]%char) then false
  else true.

Definition upperhex (n : nat) : ascii :=
  default "0"%char (String.get n "0123456789ABCDEF").

(** [escape(s, encodeQueryComponent)]. *)
Fixpoint QueryEscape (s : string) : string :=
  match s with
  | EmptyString => EmptyString
  | String c s' =>
      if shouldEscape c then
        if Ascii.eqb c " " then String "+" (QueryEscape s')
        else String "%" (String (upperhex (nat_of_ascii c / 16))
               (String (upperhex (nat_of_ascii c mod 16)) (QueryEscape s')))
      else String c (QueryEscape s')
  end.

(** The order of [sort.Strings]: bytewise lexicographic. *)
Definition string_le (a b : string) : Prop := String.leb a b = true.

#[global] Instance string_le_dec a b : Decision (string_le a b) :=
  decide (String.leb a b = true).

(** The inner loop of [Values.Encode] over the values of one key. *)
Definition encode_key (keyEscaped : string) (buf : string) (vs : list string)
  : string :=
  foldl (fun buf v =>
           let buf := if (0 <? Z.of_nat (String.length buf))
                      then buf +:+ "&" else buf in
           buf +:+ keyEscaped +:+ "=" +:+ QueryEscape v) buf vs.

(** [Values.Encode]: keys sorted, every value of a key in its order.
    (A map in this model is never the [nil] map; the [nil] map encodes
    like the empty one.) *)
Definition Values_Encode (v : Values) : string :=
  let keys := merge_sort string_le (map fst (map_to_list v)) in
  foldl (fun buf k => encode_key (QueryEscape k) buf (default [] (v !! k)))
        "" keys.

End url.

(** ** Go values

    The fragment of Go values that the structured comparison and the
    capture work on here: booleans, integers, strings and structs of
    exported fields, each field given by its Go name. *)

Inductive GoType :=
| TBool
| TInt
| TString
| TStruct (fields : list (string * GoType)).

Inductive GoValue :=
| VBool (b : bool)
| VInt (n : Z)
| VString (s : string)
| VStruct (fields : list (string * GoValue)).

Module reflect.

(** [reflect.TypeOf]. *)
Fixpoint TypeOf (v : GoValue) : GoType :=
  match v with
  | VBool _ => TBool
  | VInt _ => TInt
  | VString _ => TString
  | VStruct fs => TStruct (map (fun f => (fst f, TypeOf (snd f))) fs)
  end.

(** Identity of types, [t1 == t2]. *)
Fixpoint Type_eqb (t1 t2 : GoType) : bool :=
  match t1, t2 with
  | TBool, TBool | TInt, TInt | TString, TString => true
  | TStruct fs, TStruct gs =>
      (fix fields (fs gs : list (string * GoType)) : bool :=
         match fs, gs with
         | [], [] => true
         | f :: fs', g :: gs' =>
             (String.eqb (fst f) (fst g) && Type_eqb (snd f) (snd g)
              && fields fs' gs')%bool
         | _, _ => false
         end) fs gs
  | _, _ => false
  end.

(** [reflect.Zero(t).Interface()]. *)
Fixpoint Zero (t : GoType) : GoValue :=
  match t with
  | TBool => VBool false
  | TInt => VInt 0
  | TString => VString ""
  | TStruct fs => VStruct (map (fun f => (fst f, Zero (snd f))) fs)
  end.

(** [reflect.DeepEqual]: values of different types are never deeply
    equal; structs are compared field by field. *)
Fixpoint DeepEqual (x y : GoValue) : bool :=
  match x, y with
  | VBool a, VBool b => Bool.eqb a b
  | VInt a, VInt b => (a =? b)
  | VString a, VString b => String.eqb a b
  | VStruct fs, VStruct gs =>
      (fix fields (fs gs : list (string * GoValue)) : bool :=
         match fs, gs with
         | [], [] => true
         | f :: fs', g :: gs' =>
             (String.eqb (fst f) (fst g) && DeepEqual (snd f) (snd g)
              && fields fs' gs')%bool
         | _, _ => false
         end) fs gs
  | _, _ => false
  end.

End reflect.

(** [strings.TrimPrefix]. *)
Definition strings_TrimPrefix (s prefix : string) : string :=
  if String.prefix prefix s
  then String.substring (String.length prefix)
         (String.length s - String.length prefix) s
  else s.

(** ** go-cmp: options and the comparison engine

    A model of [cmp.Equal] and [cmp.Diff] of github.com/google/go-cmp
    (v0.5.6) on the fragment above, with the options tesuto builds its
    own from: [FilterPath], [FilterValues], [Comparer] and [Ignore].
    The functions given to [FilterValues] and [Comparer] take
    [interface{}] arguments, as tesuto's do, and so apply to values of
    every type.  go-cmp randomly checks that such functions are
    symmetric; they are taken to be. *)

Module cmp.

(** [cmp.Path], reduced to the names of the struct fields passed from
    the root; the other steps do not show in [Path.String]. *)
Definition Path := list string.

(** [Path.String]: every field step prints as [.Name]; the leading dot
    is trimmed. *)
Definition Path_String (p : Path) : string :=
  strings_TrimPrefix (String.concat "" (map (fun name => "." +:+ name) p)) ".".

Inductive Option :=
| FilterPath (f : Path -> bool) (opt : Option)
| FilterValues (f : GoValue -> GoValue -> bool) (opt : Option)
| Comparer (f : GoValue -> GoValue -> bool)
| Ignore.

(** What remains of a set of options at one node of the value tree. *)
Inductive applicableOption :=
| applies_none
| applies_ignore
| applies_comparer (f : GoValue -> GoValue -> bool)
| applies_ambiguous.

(** [filter] of one option. *)
Fixpoint Option_filter (o : Option) (p : Path) (x y : GoValue)
  : applicableOption :=
  match o with
  | FilterPath f opt => if f p then Option_filter opt p x y else applies_none
  | FilterValues f opt => if f x y then Option_filter opt p x y else applies_none
  | Comparer f => applies_comparer f
  | Ignore => applies_ignore
  end.

(** [Options.filter]: an applicable [Ignore] ends the scan at once; two
    applicable comparers conflict. *)
Fixpoint Options_filter (opts : list Option) (p : Path) (x y : GoValue)
  (out : applicableOption) : applicableOption :=
  match opts with
  | [] => out
  | opt :: opts' =>
      match Option_filter opt p x y with
      | applies_ignore => applies_ignore
      | applies_comparer f =>
          Options_filter opts' p x y
            (match out with
             | applies_none => applies_comparer f
             | _ => applies_ambiguous
             end)
      | _ => Options_filter opts' p x y out
      end
  end.

(** The outcome of a comparison: a panic of the engine, or whether no
    difference was reported. *)
Inductive Result :=
| Panics (msg : string)
| Reports (equal : bool).

Definition both (r1 r2 : Result) : Result :=
  match r1, r2 with
  | Panics m, _ => Panics m
  | _, Panics m => Panics m
  | Reports a, Reports b => Reports (a && b)
  end.

(** [tryOptions]: [None] when no option applies at this node. *)
Definition tryOptions (opts : list Option) (p : Path) (x y : GoValue)
  : option Result :=
  match Options_filter opts p x y applies_none with
  | applies_none => None
  | applies_ignore => Some (Reports true)
  | applies_comparer f => Some (Reports (f x y))
  | applies_ambiguous => Some (Panics "ambiguous set of applicable options")
  end.

(** [compareAny] at path [p] on two values of one type: first the
    options, then the comparison by kind; [compareStruct] visits every
    field, with the path extended by the field's name. *)
Fixpoint compareAny (opts : list Option) (p : Path) (x y : GoValue) : Result :=
  match tryOptions opts p x y with
  | Some r => r
  | None =>
      match x, y with
      | VBool a, VBool b => Reports (Bool.eqb a b)
      | VInt a, VInt b => Reports (a =? b)
      | VString a, VString b => Reports (String.eqb a b)
      | VStruct fs, VStruct gs =>
          (fix compareStruct (fs gs : list (string * GoValue)) : Result :=
             match fs, gs with
             | f :: fs', g :: gs' =>
                 both (compareAny opts (p ++ [fst f]) (snd f) (snd g))
                      (compareStruct fs' gs')
             | _, _ => Reports true
             end) fs gs
      | _, _ => Reports false
      end
  end.

(** [cmp.Equal]: values of different types are wrapped in an interface
    at the root, where the options are tried before the types are found
    to differ. *)
Definition Equal (x y : GoValue) (opts : list Option) : Result :=
  if reflect.Type_eqb (reflect.TypeOf x) (reflect.TypeOf y)
  then compareAny opts [] x y
  else match tryOptions opts [] x y with
       | Some r => r
       | None => Reports false
       end.

End cmp.

(** ** Readers, requests, responses and the server under test *)

(** The [io.Reader]s that the options themselves build,
    [*bytes.Reader] and [*strings.Reader], over their contents. *)
Inductive Reader :=
| bytes_NewReader (b : string)
| strings_NewReader (s : string).

(** An [interface{}] argument: [nil], a value of the fragment, or one
    of the readers above. *)
Inductive any :=
| any_nil
| any_value (v : GoValue)
| any_reader (r : Reader).

(** The conversion of an [io.Reader] to [interface{}]. *)
Definition any_of_Reader (r : option Reader) : any :=
  match r with
  | None => any_nil
  | Some r => any_reader r
  end.

(** [*http.Request], as far as the harness touches it. *)
Record Request := {
  req_Method : string;
  req_URL : string;
  req_Header : Header;
  req_Body : option Reader
}.

(** A response body stream: the bytes it yields and the error that ends
    the reading, if any. *)
Record Body := {
  body_data : string;
  body_err : option string
}.

(** [*http.Response]. *)
Record Response := {
  StatusCode : Z;
  resp_Header : Header;
  resp_Body : Body
}.

(** [*cookiejar.Jar], a pointer. *)
Inductive Jar := jar_at (addr : nat).

(** [*http.Client], as far as the harness configures it. *)
Record Client := { client_Jar : option Jar }.

(** [*httptest.Server]: its base URL, its client, and what sending a
    request through a client gives, a response or a transport error. *)
Record Server := {
  URL : string;
  Server_Client : Client;
  Client_Do : Client -> Request -> Response + string
}.

(** [ioutil.ReadAll]: the bytes read and the error, if any. *)
Definition ioutil_ReadAll (b : Body) : string * option string :=
  (body_data b, body_err b).

(** [bytes.Equal]. *)
Definition bytes_Equal (a b : string) : bool := String.eqb a b.

(** ** The collaborators

    What the harness calls and this development does not define: the
    JSON codec, the validation done by [http.NewRequest], the printing
    of [fmt]'s [%#v] and of go-cmp's report, and the order in which the
    Go runtime ranges over a map. *)
Record Env := {
  (** [json.Marshal]: the encoding, or an error. *)
  json_Marshal : any -> string + string;
  (** [json.Unmarshal(data, &v)]: the value left in [v], and the error
      if any. *)
  json_Unmarshal : string -> GoValue -> GoValue * option string;
  (** The error of [json.Unmarshal] on a nil pointer. *)
  InvalidUnmarshalError : string;
  (** The error of [http.NewRequest] on an invalid method or URL. *)
  NewRequest_check : string -> string -> option string;
  (** [fmt]'s [%#v] of a header. *)
  gosyntax : Header -> string;
  (** The text of go-cmp's report of a difference, which is never
      empty: its first byte and the rest. *)
  diff_report : GoValue -> GoValue -> list cmp.Option -> ascii * string;
  (** [for k, v := range m]: the entries in the order of this run. *)
  range : gmap string string -> list (string * string);
  range_perm : forall m, range m ≡ₚ map_to_list m
}.

(** [http.NewRequest]: a request with the given method ([GET] for the
    empty one), URL and body, and a fresh empty header. *)
Definition http_NewRequest (env : Env) (method url : string)
  (body : option Reader) : Request + string :=
  let method := if String.eqb method "" then "GET" else method in
  match NewRequest_check env method url with
  | Some err => inr err
  | None => inl {| req_Method := method; req_URL := url;
                   req_Header := ∅; req_Body := body |}
  end.

(** [cmp.Diff]: the empty string exactly when [cmp.Equal] holds. *)
Definition cmp_Diff (env : Env) (x y : GoValue) (opts : list cmp.Option)
  : string + string :=
  match cmp.Equal x y opts with
  | cmp.Panics msg => inr msg
  | cmp.Reports true => inl ""
  | cmp.Reports false =>
      inl (String (fst (diff_report env x y opts)) (snd (diff_report env x y opts)))
  end.

(** ** The test case *)

Record testCase := {
  server : Server;
  method : string;
  path : string;
  mutateReq : list (Request -> Request);
  input : option Reader;
  jar : option Jar;
  expectCode : Z;
  expectRaw : option string;
  expectJSON : option GoValue;
  outputCmpOpt : list cmp.Option;
  expectHeaders : gmap string string;
  (** A pointer to the object that receives the decoded body. *)
  grabOutput : option nat;
  fatalFailure : bool
}.

Definition set_mutateReq (tc : testCase) (v : list (Request -> Request)) :=
  {| server := server tc; method := method tc; path := path tc;
     mutateReq := v; input := input tc; jar := jar tc;
     expectCode := expectCode tc; expectRaw := expectRaw tc;
     expectJSON := expectJSON tc; outputCmpOpt := outputCmpOpt tc;
     expectHeaders := expectHeaders tc; grabOutput := grabOutput tc;
     fatalFailure := fatalFailure tc |}.

Definition set_input (tc : testCase) (v : option Reader) :=
  {| server := server tc; method := method tc; path := path tc;
     mutateReq := mutateReq tc; input := v; jar := jar tc;
     expectCode := expectCode tc; expectRaw := expectRaw tc;
     expectJSON := expectJSON tc; outputCmpOpt := outputCmpOpt tc;
     expectHeaders := expectHeaders tc; grabOutput := grabOutput tc;
     fatalFailure := fatalFailure tc |}.

Definition set_jar (tc : testCase) (v : option Jar) :=
  {| server := server tc; method := method tc; path := path tc;
     mutateReq := mutateReq tc; input := input tc; jar := v;
     expectCode := expectCode tc; expectRaw := expectRaw tc;
     expectJSON := expectJSON tc; outputCmpOpt := outputCmpOpt tc;
     expectHeaders := expectHeaders tc; grabOutput := grabOutput tc;
     fatalFailure := fatalFailure tc |}.

Definition set_expectCode (tc : testCase) (v : Z) :=
  {| server := server tc; method := method tc; path := path tc;
     mutateReq := mutateReq tc; input := input tc; jar := jar tc;
     expectCode := v; expectRaw := expectRaw tc;
     expectJSON := expectJSON tc; outputCmpOpt := outputCmpOpt tc;
     expectHeaders := expectHeaders tc; grabOutput := grabOutput tc;
     fatalFailure := fatalFailure tc |}.

Definition set_expectRaw (tc : testCase) (v : option string) :=
  {| server := server tc; method := method tc; path := path tc;
     mutateReq := mutateReq tc; input := input tc; jar := jar tc;
     expectCode := expectCode tc; expectRaw := v;
     expectJSON := expectJSON tc; outputCmpOpt := outputCmpOpt tc;
     expectHeaders := expectHeaders tc; grabOutput := grabOutput tc;
     fatalFailure := fatalFailure tc |}.

Definition set_expectJSON (tc : testCase) (v : option GoValue)
  (opts : list cmp.Option) :=
  {| server := server tc; method := method tc; path := path tc;
     mutateReq := mutateReq tc; input := input tc; jar := jar tc;
     expectCode := expectCode tc; expectRaw := expectRaw tc;
     expectJSON := v; outputCmpOpt := opts;
     expectHeaders := expectHeaders tc; grabOutput := grabOutput tc;
     fatalFailure := fatalFailure tc |}.

Definition set_expectHeaders (tc : testCase) (v : gmap string string) :=
  {| server := server tc; method := method tc; path := path tc;
     mutateReq := mutateReq tc; input := input tc; jar := jar tc;
     expectCode := expectCode tc; expectRaw := expectRaw tc;
     expectJSON := expectJSON tc; outputCmpOpt := outputCmpOpt tc;
     expectHeaders := v; grabOutput := grabOutput tc;
     fatalFailure := fatalFailure tc |}.

Definition set_grabOutput (tc : testCase) (v : option nat) :=
  {| server := server tc; method := method tc; path := path tc;
     mutateReq := mutateReq tc; input := input tc; jar := jar tc;
     expectCode := expectCode tc; expectRaw := expectRaw tc;
     expectJSON := expectJSON tc; outputCmpOpt := outputCmpOpt tc;
     expectHeaders := expectHeaders tc; grabOutput := v;
     fatalFailure := fatalFailure tc |}.

Definition set_fatalFailure (tc : testCase) (v : bool) :=
  {| server := server tc; method := method tc; path := path tc;
     mutateReq := mutateReq tc; input := input tc; jar := jar tc;
     expectCode := expectCode tc; expectRaw := expectRaw tc;
     expectJSON := expectJSON tc; outputCmpOpt := outputCmpOpt tc;
     expectHeaders := expectHeaders tc; grabOutput := grabOutput tc;
     fatalFailure := v |}.

(** ** Options

    An option mutates the test case; [WithJSONInput] may panic
    instead. *)

Inductive OrPanic (A : Type) :=
| Done (a : A)
| Panicked (v : string).
Arguments Done {A} a.
Arguments Panicked {A} v.

Definition TestOption := testCase -> OrPanic testCase.

Definition WithInput (r : option Reader) : TestOption :=
  fun tc => Done (set_input tc r).

Definition WithJSONInput (env : Env) (input_ : any) : TestOption :=
  fun tc =>
    match json_Marshal env (any_of_Reader (input tc)) with
    | inr err => Panicked err
    | inl raw =>
        let tc := set_input tc (Some (bytes_NewReader raw)) in
        Done (set_mutateReq tc
                (mutateReq tc ++
                 [fun r => {| req_Method := req_Method r; req_URL := req_URL r;
                              req_Header :=
                                http.Header_Set (req_Header r)
                                  "Content-Type" "application/json";
                              req_Body := req_Body r |}]))
    end.

Definition WithFormInput (values : url.Values) : TestOption :=
  fun tc =>
    let raw := url.Values_Encode values in
    let tc := set_input tc (Some (strings_NewReader raw)) in
    Done (set_mutateReq tc
            (mutateReq tc ++
             [fun r => {| req_Method := req_Method r; req_URL := req_URL r;
                          req_Header :=
                            http.Header_Set (req_Header r)
                              "Content-Type" "application/x-www-form-urlencoded";
                          req_Body := req_Body r |}])).

Definition WithHeader (name value : string) : TestOption :=
  fun tc =>
    Done (set_mutateReq tc
            (mutateReq tc ++
             [fun r =>
                if String.eqb (http.CanonicalHeaderKey name) "Content-Type"
                then {| req_Method := req_Method r; req_URL := req_URL r;
                        req_Header := http.Header_Set (req_Header r) name value;
                        req_Body := req_Body r |}
                else {| req_Method := req_Method r; req_URL := req_URL r;
                        req_Header := http.Header_Add (req_Header r) name value;
                        req_Body := req_Body r |}])).

Definition WithCookieJar (j : option Jar) : TestOption :=
  fun tc => Done (set_jar tc j).

Definition ExpectStatusCode (code : Z) : TestOption :=
  fun tc => Done (set_expectCode tc code).

Definition ExpectHeader (name value : string) : TestOption :=
  fun tc => Done (set_expectHeaders tc (<[name := value]> (expectHeaders tc))).

Definition ExpectRawResponse (body : option string) : TestOption :=
  fun tc => Done (set_expectRaw tc body).

Definition ExpectJSONResponse (output : option GoValue)
  (compareOpt : list cmp.Option) : TestOption :=
  fun tc => Done (set_expectJSON tc output compareOpt).

Definition GrabJSONResponse (out : option nat) : TestOption :=
  fun tc => Done (set_grabOutput tc out).

Definition FatalFailure : TestOption :=
  fun tc => Done (set_fatalFailure tc true).

(** [NotEmpty]: at the path [name], the values are handed to a comparer
    that always answers true, when both differ from the zero value of
    their type. *)
Definition NotEmpty (name : string) : cmp.Option :=
  cmp.FilterPath (fun p => String.eqb (cmp.Path_String p) name)
    (cmp.FilterValues
       (fun x y =>
          (negb (reflect.DeepEqual x (reflect.Zero (reflect.TypeOf x)))
           && negb (reflect.DeepEqual y (reflect.Zero (reflect.TypeOf y))))%bool)
       (cmp.Comparer (fun _ _ => true))).

Definition IgnoreField (name : string) : cmp.Option :=
  cmp.FilterPath (fun p => String.eqb (cmp.Path_String p) name) cmp.Ignore.

(** ** The test function and [testing.T]

    The state a test function works on: the log and the failed flag of
    its [*testing.T], and the objects behind pointers.  A run returns,
    leaves the goroutine through [FailNow] ([runtime.Goexit]), or
    panics. *)

Record State := {
  output : list string;
  failed : bool;
  heap : gmap nat GoValue
}.

Inductive Outcome (A : Type) :=
| Returns (a : A)
| Goexit
| Panic (v : string).
Arguments Returns {A} a.
Arguments Goexit {A}.
Arguments Panic {A} v.

Definition Run (A : Type) : Type := State -> Outcome A * State.

#[global] Instance Run_ret : MRet Run := fun A a s => (Returns a, s).

#[global] Instance Run_bind : MBind Run := fun A B k m s =>
  match m s with
  | (Returns a, s') => k a s'
  | (Goexit, s') => (Goexit, s')
  | (Panic v, s') => (Panic v, s')
  end.

(** [fmt.Sprintln] of strings: spaces between the operands and a final
    newline. *)
Definition Sprintln (args : list string) : string :=
  String.concat " " args +:+ nl.

(** [c.log], [c.Fail] and [c.FailNow] of package testing. *)
Definition t_log (msg : string) : Run unit := fun s =>
  (Returns tt, {| output := output s ++ [msg]; failed := failed s; heap := heap s |}).

Definition t_Fail : Run unit := fun s =>
  (Returns tt, {| output := output s; failed := true; heap := heap s |}).

Definition t_FailNow : Run unit := fun s =>
  (Goexit, {| output := output s; failed := true; heap := heap s |}).

Definition t_Log (args : list string) : Run unit := t_log (Sprintln args).
Definition t_Logf (msg : string) : Run unit := t_log msg.
Definition t_Error (args : list string) : Run unit := t_log (Sprintln args) ;; t_Fail.
Definition t_Errorf (msg : string) : Run unit := t_log msg ;; t_Fail.
Definition t_Fatal (args : list string) : Run unit := t_log (Sprintln args) ;; t_FailNow.
Definition t_Fatalf (msg : string) : Run unit := t_log msg ;; t_FailNow.

(** A panic of the test function. *)
Definition panic {A} (v : string) : Run A := fun s => (Panic v, s).

(** [*p = v]. *)
Definition store (p : nat) (v : GoValue) : Run unit := fun s =>
  (Returns tt, {| output := output s; failed := failed s; heap := <[p := v]> (heap s) |}).

(** [*p], when [p] points to an object. *)
Definition load (p : nat) : Run (option GoValue) := fun s =>
  (Returns (heap s !! p), s).

(** A [for ... range] loop over the entries [l]. *)
Fixpoint for_range {A} (l : list A) (body : A -> Run unit) : Run unit :=
  match l with
  | [] => mret tt
  | x :: l' => body x ;; for_range l' body
  end.

(** The messages of the assertions, as [fmt.Sprintf] formats them. *)
Definition msg_code (tc : testCase) (got : Z) : string :=
  "[" +:+ method tc +:+ " " +:+ path tc +:+ "] unexpected response code: want "
  +:+ pretty (expectCode tc) +:+ ", got " +:+ pretty got.

Definition msg_header (tc : testCase) (k v got : string) : string :=
  "[" +:+ method tc +:+ " " +:+ path tc +:+ "] unexpected response header ("
  +:+ k +:+ "): want " +:+ v +:+ ", got " +:+ got.

Definition msg_dump (env : Env) (h : Header) : string :=
  "header dump: " +:+ gosyntax env h.

Definition msg_raw (tc : testCase) (want got : string) : string :=
  "[" +:+ method tc +:+ " " +:+ path tc +:+ "] raw output mismatch:" +:+ nl
  +:+ "want: " +:+ want +:+ nl +:+ "got: " +:+ got.

Definition msg_diff (tc : testCase) (diff : string) : string :=
  "[" +:+ method tc +:+ " " +:+ path tc +:+ "] output mismatch (-want +got):"
  +:+ nl +:+ diff.

(** The request of lines 71 to 77: built, then handed to every mutator
    in the order of the queue. *)
Definition fn_request (env : Env) (tc : testCase) : Request + string :=
  match http_NewRequest env (method tc) (URL (server tc) +:+ path tc) (input tc) with
  | inr err => inr err
  | inl req => inl (foldl (fun req mut => mut req) req (mutateReq tc))
  end.

(** The client of lines 66 to 69: that of the server, with the cookie
    jar of the test case when it has one.  (The assignment writes the
    client that the test cases of a suite share; one run reads it
    once.) *)
Definition fn_client (tc : testCase) : Client :=
  let client := Server_Client (server tc) in
  match jar tc with
  | Some j => {| client_Jar := Some j |}
  | None => client
  end.

(** Lines 85 to 128 of [testCase.fn]: what the test function does with
    the response. *)
Definition fn_assert (env : Env) (tc : testCase) (resp : Response) : Run unit :=
  let '(gotRaw, err) := ioutil_ReadAll (resp_Body resp) in
  match err with
  | Some err => t_Error ["error reading body:"; err]
  | None => mret tt
  end ;;
  t_Log ["output:" +:+ nl; gotRaw] ;;

  let fail := if fatalFailure tc then t_Fatalf else t_Errorf in

  (if (negb (expectCode tc =? 0) && negb (StatusCode resp =? expectCode tc))%bool
   then fail (msg_code tc (StatusCode resp))
   else mret tt) ;;

  for_range (range env (expectHeaders tc)) (fun kv =>
    let got := http.Header_Get (resp_Header resp) (fst kv) in
    if negb (String.eqb got (snd kv))
    then fail (msg_header tc (fst kv) (snd kv) got) ;;
         t_Logf (msg_dump env (resp_Header resp))
    else mret tt) ;;

  match expectRaw tc with
  | Some want =>
      if negb (bytes_Equal want gotRaw)
      then fail (msg_raw tc want gotRaw)
      else mret tt
  | None => mret tt
  end ;;

  match expectJSON tc with
  | Some want =>
      let '(output, err) :=
        json_Unmarshal env gotRaw (reflect.Zero (reflect.TypeOf want)) in
      match err with
      | Some err => t_Fatal [err]
      | None =>
          match cmp_Diff env want output (outputCmpOpt tc) with
          | inr v => panic v
          | inl diff =>
              if negb (String.eqb diff "")
              then fail (msg_diff tc diff)
              else mret tt
          end
      end
  | None => mret tt
  end ;;

  match grabOutput tc with
  | Some p =>
      cur ← load p ;
      match cur with
      | None => t_Fatal [InvalidUnmarshalError env]
      | Some cur =>
          let '(v, err) := json_Unmarshal env gotRaw cur in
          store p v ;;
          match err with
          | Some err => t_Fatal [err]
          | None => mret tt
          end
      end
  | None => mret tt
  end.

(** [testCase.fn]: the test function.  (The deferred closing of the
    response body has no effect on this state.) *)
Definition fn (env : Env) (tc : testCase) : Run unit :=
  let client := fn_client tc in
  match fn_request env tc with
  | inr err => t_Fatal [err]
  | inl req =>
      match Client_Do (server tc) client req with
      | inr err => t_Fatal [err]
      | inl resp => fn_assert env tc resp
      end
  end.

(** [HTTP], the suite, and [HTTP.Test]: the options are applied in
    order to a fresh test case, whose test function is returned. *)
Record HTTP := { Server_ : Server }.

Definition New (server : Server) : HTTP := {| Server_ := server |}.

Definition new_testCase (h : HTTP) (method path : string) : testCase :=
  {| server := Server_ h; method := method; path := path;
     mutateReq := []; input := None; jar := None; expectCode := 0;
     expectRaw := None; expectJSON := None; outputCmpOpt := [];
     expectHeaders := ∅; grabOutput := None; fatalFailure := false |}.

Fixpoint apply_opts (opts : list TestOption) (tc : testCase) : OrPanic testCase :=
  match opts with
  | [] => Done tc
  | opt :: opts' =>
      match opt tc with
      | Done tc' => apply_opts opts' tc'
      | Panicked v => Panicked v
      end
  end.

Definition Test (env : Env) (h : HTTP) (method path : string)
  (opts : list TestOption) : OrPanic (Run unit) :=
  match apply_opts opts (new_testCase h method path) with
  | Done tc => Done (fn env tc)
  | Panicked v => Panicked v
  end.

(** ** The assertion sequence, as the specification words it

    The steps of the executor after the response has arrived, each a
    definition of its own: read and log the body, then the status, the
    headers, the raw body, the structured comparison and the capture.
    [fn_assert_sequence] below shows that [fn_assert] is their
    sequence. *)

(** The failure channel: the failure is recorded, and the test goes on
    or, under fail-fast, stops. *)
Definition report (tc : testCase) (msg : string) : Run unit :=
  t_log msg ;; if fatalFailure tc then t_FailNow else t_Fail.

Definition read_error_entry (resp : Response) : list string :=
  match body_err (resp_Body resp) with
  | Some err => [Sprintln ["error reading body:"; err]]
  | None => []
  end.

Definition output_entry (resp : Response) : string :=
  Sprintln ["output:" +:+ nl; body_data (resp_Body resp)].

Definition read_and_log (resp : Response) : Run unit := fun s =>
  (Returns tt,
   {| output := output s ++ read_error_entry resp ++ [output_entry resp];
      failed := match body_err (resp_Body resp) with
                | Some _ => true
                | None => failed s
                end;
      heap := heap s |}).

Definition assert_status (tc : testCase) (resp : Response) : Run unit :=
  if decide (expectCode tc = 0) then mret tt
  else if decide (StatusCode resp = expectCode tc) then mret tt
  else report tc (msg_code tc (StatusCode resp)).

Definition assert_header (env : Env) (tc : testCase) (resp : Response)
  (kv : string * string) : Run unit :=
  if decide (http.Header_Get (resp_Header resp) (fst kv) = snd kv) then mret tt
  else report tc (msg_header tc (fst kv) (snd kv)
                    (http.Header_Get (resp_Header resp) (fst kv))) ;;
       t_Logf (msg_dump env (resp_Header resp)).

Definition assert_headers (env : Env) (tc : testCase) (resp : Response)
  : Run unit :=
  for_range (range env (expectHeaders tc)) (assert_header env tc resp).

Definition assert_raw (tc : testCase) (resp : Response) : Run unit :=
  match expectRaw tc with
  | None => mret tt
  | Some want =>
      if decide (want = body_data (resp_Body resp)) then mret tt
      else report tc (msg_raw tc want (body_data (resp_Body resp)))
  end.

Definition assert_structured (env : Env) (tc : testCase) (resp : Response)
  : Run unit :=
  match expectJSON tc with
  | None => mret tt
  | Some want =>
      match json_Unmarshal env (body_data (resp_Body resp))
              (reflect.Zero (reflect.TypeOf want)) with
      | (_, Some err) => t_Fatal [err]
      | (got, None) =>
          match cmp_Diff env want got (outputCmpOpt tc) with
          | inr v => panic v
          | inl diff =>
              if decide (diff = "") then mret tt
              else report tc (msg_diff tc diff)
          end
      end
  end.

Definition capture (env : Env) (tc : testCase) (resp : Response) : Run unit :=
  match grabOutput tc with
  | None => mret tt
  | Some p => fun s =>
      match heap s !! p with
      | None => t_Fatal [InvalidUnmarshalError env] s
      | Some cur =>
          let decoded := json_Unmarshal env (body_data (resp_Body resp)) cur in
          let s' := {| output := output s; failed := failed s;
                       heap := <[p := fst decoded]> (heap s) |} in
          match snd decoded with
          | Some err => t_Fatal [err] s'
          | None => (Returns tt, s')
          end
      end
  end.

Definition assertions (env : Env) (tc : testCase) (resp : Response) : Run unit :=
  assert_status tc resp ;; assert_headers env tc resp ;; assert_raw tc resp ;;
  assert_structured env tc resp ;; capture env tc resp.

(** What the response does to the expectations. *)
Definition code_ok (tc : testCase) (resp : Response) : Prop :=
  expectCode tc = 0 \/ StatusCode resp = expectCode tc.

Definition header_ok (resp : Response) (kv : string * string) : Prop :=
  http.Header_Get (resp_Header resp) (fst kv) = snd kv.

Definition headers_ok (tc : testCase) (resp : Response) : Prop :=
  forall k v, expectHeaders tc !! k = Some v -> header_ok resp (k, v).

Definition raw_ok (tc : testCase) (resp : Response) : Prop :=
  forall want, expectRaw tc = Some want -> want = body_data (resp_Body resp).

(** The structured comparison, when configured, decodes the body and the
    engine answers. *)
Definition structured_decodes (env : Env) (tc : testCase) (resp : Response)
  : Prop :=
  forall want, expectJSON tc = Some want ->
    exists got diff,
      json_Unmarshal env (body_data (resp_Body resp))
        (reflect.Zero (reflect.TypeOf want)) = (got, None)
      /\ cmp_Diff env want got (outputCmpOpt tc) = inl diff.

Definition structured_ok (env : Env) (tc : testCase) (resp : Response) : Prop :=
  forall want, expectJSON tc = Some want ->
    exists got,
      json_Unmarshal env (body_data (resp_Body resp))
        (reflect.Zero (reflect.TypeOf want)) = (got, None)
      /\ cmp_Diff env want got (outputCmpOpt tc) = inl "".

(** States: entries appended to the log, the failed flag raised. *)
Definition logged (s : State) (l : list string) : State :=
  {| output := output s ++ l; failed := failed s; heap := heap s |}.

Definition failing (s : State) : State :=
  {| output := output s; failed := true; heap := heap s |}.

#[global] Instance code_ok_dec tc resp : Decision (code_ok tc resp) :=
  or_dec (decide (expectCode tc = 0)) (decide (StatusCode resp = expectCode tc)).

#[global] Instance header_ok_dec resp kv : Decision (header_ok resp kv) :=
  decide (http.Header_Get (resp_Header resp) (fst kv) = snd kv).

#[global] Instance headers_ok_dec tc resp : Decision (headers_ok tc resp) :=
  map_Forall_dec (fun k v => header_ok resp (k, v)) (expectHeaders tc).

(** The entries that the header loop logs when it runs to its end. *)
Definition header_entries (env : Env) (tc : testCase) (resp : Response)
  (l : list (string * string)) : list string :=
  flat_map (fun kv =>
    if decide (header_ok resp kv) then []
    else [msg_header tc kv.1 kv.2 (http.Header_Get (resp_Header resp) kv.1);
          msg_dump env (resp_Header resp)]) l.

(** The log of [s'] continues that of [s], and a failure recorded in
    [s] is still recorded in [s']. *)
Definition extends (s s' : State) : Prop :=
  output s `prefix_of` output s' /\ (failed s = true -> failed s' = true).

Definition grows {A} (m : Run A) : Prop := forall s, extends s (m s).2.

(** A step that, from every state, ends with the outcome [o], appends
    the entries [l] to the log and writes no object. *)
Definition acts (m : Run unit) (o : Outcome unit) (l : list string) : Prop :=
  forall s, (m s).1 = o /\ output (m s).2 = output s ++ l /\ heap (m s).2 = heap s.

(** The same of a run started with the objects [h], which it may write. *)
Definition shaped (m : Run unit) (h : gmap nat GoValue) (o : Outcome unit)
  (l : list string) : Prop :=
  forall s, heap s = h -> (m s).1 = o /\ output (m s).2 = output s ++ l.

(** The outcome of a step followed by another. *)
Definition and_then (o1 o2 : Outcome unit) : Outcome unit :=
  match o1 with
  | Returns _ => o2
  | _ => o1
  end.

(** The log of a step followed by another: the entries of the second
    are there when the first returns. *)
Definition cut (o : Outcome unit) (l rest : list string) : list string :=
  l ++ match o with
       | Returns _ => rest
       | _ => []
       end.

(** The options that queue a request mutator, with the canonical header
    key and the value the mutator writes. *)
Inductive header_option (env : Env) : TestOption -> string -> string -> Prop :=
| header_option_WithHeader name value :
    header_option env (WithHeader name value) (http.CanonicalHeaderKey name) value
| header_option_WithJSONInput v :
    header_option env (WithJSONInput env v) "Content-Type" "application/json"
| header_option_WithFormInput values :
    header_option env (WithFormInput values) "Content-Type"
      "application/x-www-form-urlencoded".

(** A string occurs in another. *)
Definition occurs_in (sub s : string) : Prop :=
  exists before after, s = before +:+ sub +:+ after.

(** Last-mutator-wins, for every header key. *)
Definition last_mutator_wins_every_key : Prop :=
  forall env tc o1 o2 k v1 v2 tc1 tc2 req,
    header_option env o1 k v1 -> header_option env o2 k v2 ->
    o1 tc = Done tc1 -> o2 tc1 = Done tc2 ->
    fn_request env tc2 = inl req ->
    http.Header_Get (req_Header req) k = v2.

(** The response [resp] with another status code. *)
Definition with_status (resp : Response) (code : Z) : Response :=
  {| StatusCode := code; resp_Header := resp_Header resp;
     resp_Body := resp_Body resp |}.

(** ** A sample environment

    A JSON codec for [nil], booleans, integers and readers (a reader has
    no exported field and encodes as an empty object), a request
    validation that accepts everything, and servers that answer every
    request with one fixed response. *)

Definition sample_Marshal (v : any) : string + string :=
  match v with
  | any_nil => inl "null"
  | any_value (VBool true) => inl "true"
  | any_value (VBool false) => inl "false"
  | any_value (VInt n) => inl (pretty n)
  | any_value _ => inr "json: unsupported value"
  | any_reader _ => inl "{}"
  end.

Definition sample_Unmarshal (data : string) (cur : GoValue)
  : GoValue * option string :=
  match cur with
  | VBool _ =>
      if String.eqb data "true" then (VBool true, None)
      else if String.eqb data "false" then (VBool false, None)
      else (cur, Some "json: cannot unmarshal into Go value of type bool")
  | _ => (cur, Some "json: unsupported target")
  end.

Definition sample_env : Env :=
  {| json_Marshal := sample_Marshal;
     json_Unmarshal := sample_Unmarshal;
     InvalidUnmarshalError := "json: Unmarshal(nil)";
     NewRequest_check := fun _ _ => None;
     gosyntax := fun _ => "http.Header{}";
     diff_report := fun _ _ _ => ("-"%char, "want +got");
     range := map_to_list;
     range_perm := fun m => reflexivity (map_to_list m) |}.

Definition serving (resp : Response) : Server :=
  {| URL := "http://127.0.0.1:8080";
     Server_Client := {| client_Jar := None |};
     Client_Do := fun _ _ => inl resp |}.

Definition answer (code : Z) (body : string) (err : option string) : Response :=
  {| StatusCode := code; resp_Header := ∅;
     resp_Body := {| body_data := body; body_err := err |} |}.

Definition sample_tc : testCase :=
  new_testCase (New (serving (answer 200 "" None))) "POST" "/greet".

Definition fresh_state (h : gmap nat GoValue) : State :=
  {| output := []; failed := false; heap := h |}.

(** ** The parsing helpers

    [ParseHTML] and [ParseURL] hand a string to a parser, goquery's and
    net/url's, which is a parameter here: it answers a document, or a
    URL, and an error if any. *)

Definition tab : string := String (ascii_of_nat 9) "".

Definition ParseHTML {Document : Type}
  (NewDocumentFromReader : string -> Document * option string)
  (body : string) : Run Document :=
  let '(doc, err) := NewDocumentFromReader body in
  match err with
  | Some err =>
      t_Fatalf ("couldn't parse HTML (error: " +:+ err +:+ ")" +:+ nl
                +:+ " body:" +:+ nl +:+ tab +:+ body)
  | None => mret tt
  end ;;
  mret doc.

Definition ParseURL {URLT : Type}
  (url_Parse : string -> URLT * option string)
  (href : string) : Run URLT :=
  let '(u, err) := url_Parse href in
  match err with
  | Some err =>
      t_Fatalf ("couldn't parse URL (error: " +:+ err +:+ "): " +:+ href)
  | None => mret tt
  end ;;
  mret u.

(** ** The options of the package, and what a run does to a state *)

(** The options that the package exports. *)
Inductive provided (env : Env) : TestOption -> Prop :=
| provided_WithInput r : provided env (WithInput r)
| provided_WithJSONInput v : provided env (WithJSONInput env v)
| provided_WithFormInput values : provided env (WithFormInput values)
| provided_WithHeader name value : provided env (WithHeader name value)
| provided_WithCookieJar j : provided env (WithCookieJar j)
| provided_ExpectStatusCode code : provided env (ExpectStatusCode code)
| provided_ExpectHeader name value : provided env (ExpectHeader name value)
| provided_ExpectRawResponse body : provided env (ExpectRawResponse body)
| provided_ExpectJSONResponse output opts :
    provided env (ExpectJSONResponse output opts)
| provided_GrabJSONResponse out : provided env (GrabJSONResponse out)
| provided_FatalFailure : provided env FatalFailure.

(** From every state whose objects are [h], the run [m] ends with the
    outcome [o], appends the entries [l] to the log, raises the failed
    flag when [f] holds and leaves the objects [h']. *)
Definition effect_on (h : gmap nat GoValue) (m : Run unit) (o : Outcome unit)
  (l : list string) (f : bool) (h' : gmap nat GoValue) : Prop :=
  forall s, heap s = h ->
    m s = (o, {| output := output s ++ l; failed := failed s || f; heap := h' |}).

Definition returns (o : Outcome unit) : bool :=
  match o with
  | Returns _ => true
  | _ => false
  end.

(** A step that reports through the failure channel: when its
    expectation is met it does nothing; when not, it records a failure
    with at least one entry, exactly one under fail-fast, which ends
    the test function. *)
Definition step_reports (tc : testCase) (ok : Prop) (o : Outcome unit)
  (l : list string) (f : bool) : Prop :=
  (ok -> o = Returns tt /\ l = [] /\ f = false)
  /\ (~ ok -> o = (if fatalFailure tc then Goexit else Returns tt)
              /\ l <> [] /\ f = true
              /\ (fatalFailure tc = true -> length l = 1%nat)).

(** The capture, when configured, has an object to write and the body
    decodes into it. *)
Definition capture_ok (env : Env) (tc : testCase) (resp : Response)
  (h : gmap nat GoValue) : Prop :=
  forall p, grabOutput tc = Some p ->
    exists cur, h !! p = Some cur
      /\ (json_Unmarshal env (body_data (resp_Body resp)) cur).2 = None.

(** The environment [env] with another order of ranging over maps. *)
Definition reorder (env : Env) (r : gmap string string -> list (string * string))
  (Hr : forall m, r m ≡ₚ map_to_list m) : Env :=
  {| json_Marshal := json_Marshal env;
     json_Unmarshal := json_Unmarshal env;
     InvalidUnmarshalError := InvalidUnmarshalError env;
     NewRequest_check := NewRequest_check env;
     gosyntax := gosyntax env;
     diff_report := diff_report env;
     range := r;
     range_perm := Hr |}.

(** The pairs of one key that follow the first in an encoded form. *)
Definition more_pairs (keyEscaped : string) (vs : list string) : string :=
  foldr (fun w rest => "&" +:+ keyEscaped +:+ "=" +:+ url.QueryEscape w +:+ rest)
        "" vs.

(** The bytes that an escaped query component is made of: letters,
    digits, the four unreserved marks, the plus that stands for a space
    and the percent sign of an escape. *)
Definition query_byte (c : ascii) : bool :=
  (is_lower c || is_upper c || is_digit c
   || bool_decide (c ∈ ["-"; "_"; "."; "~"; "+"; "%"]%char))%bool.

Fixpoint all_bytes (P : ascii -> bool) (s : string) : bool :=
  match s with
  | EmptyString => true
  | String c s' => (P c && all_bytes P s')%bool
  end.

(** A value that is not a struct. *)
Definition is_leaf (v : GoValue) : bool :=
  match v with
  | VStruct _ => false
  | _ => true
  end.

(** [NotEmpty]'s filter on one value: it differs from the zero value of
    its type. *)
Definition not_zero (v : GoValue) : bool :=
  negb (reflect.DeepEqual v (reflect.Zero (reflect.TypeOf v))).

(** * Properties *)

(** ** Runs *)

Section Runs.
Context {A B : Type}.
Implicit Types (m : Run A) (k : A -> Run B) (s : State).

Lemma bind_returns m k s a s' :
  m s = (Returns a, s') -> (m ≫= k) s = k a s'.
Proof. intros H. unfold mbind, Run_bind. now rewrite H. Qed.

Lemma bind_goexit m k s s' :
  m s = (Goexit, s') -> (m ≫= k) s = (Goexit, s').
Proof. intros H. unfold mbind, Run_bind. now rewrite H. Qed.

Lemma bind_panic m k s v s' :
  m s = (Panic v, s') -> (m ≫= k) s = (Panic v, s').
Proof. intros H. unfold mbind, Run_bind. now rewrite H. Qed.

Lemma bind_ext m m' k k' :
  (forall s, m s = m' s) -> (forall a s, k a s = k' a s) ->
  forall s, (m ≫= k) s = (m' ≫= k') s.
Proof.
  intros Hm Hk s. unfold mbind, Run_bind. rewrite Hm.
  destruct (m' s) as [[a| |v] s']; auto.
Qed.

End Runs.

Lemma for_range_ext {A} (l : list A) (f g : A -> Run unit) :
  (forall x s, f x s = g x s) ->
  forall s, for_range l f s = for_range l g s.
Proof.
  intros Hfg. induction l as [|x l IH]; intros s; simpl; [reflexivity|].
  apply bind_ext; auto.
Qed.

Lemma report_fail (tc : testCase) (msg : string) (s : State) :
  (if fatalFailure tc then t_Fatalf else t_Errorf) msg s = report tc msg s.
Proof. unfold report. destruct (fatalFailure tc); reflexivity. Qed.

Lemma report_eval (tc : testCase) (msg : string) (s : State) :
  report tc msg s =
  (if fatalFailure tc then Goexit else Returns tt, failing (logged s [msg])).
Proof. unfold report. destruct (fatalFailure tc); reflexivity. Qed.

(** The executor is the sequence of the steps: the body is read and
    logged, then come the five assertions in their order. *)
Lemma fn_assert_sequence (env : Env) (tc : testCase) (resp : Response) (s : State) :
  fn_assert env tc resp s = (read_and_log resp ;; assertions env tc resp) s.
Proof.
  unfold fn_assert, ioutil_ReadAll.
  assert (Hpre : forall k : Run unit,
    (match body_err (resp_Body resp) with
     | Some err => t_Error ["error reading body:"; err]
     | None => mret tt
     end ;; t_Log ["output:" +:+ nl; body_data (resp_Body resp)] ;; k) s
    = (read_and_log resp ;; k) s).
  { intros k. unfold read_and_log, read_error_entry, output_entry.
    destruct (body_err (resp_Body resp)) as [e|]; destruct s as [o f h];
      unfold t_Error, t_Log, t_log, t_Fail, mbind, Run_bind, mret, Run_ret;
      cbn; rewrite <- ?app_assoc; reflexivity. }
  rewrite Hpre. clear Hpre. revert s.
  apply bind_ext; [reflexivity|]. intros _.
  unfold assertions.
  apply bind_ext.
  { intros s. unfold assert_status.
    destruct (decide (expectCode tc = 0)) as [->|Hne]; [reflexivity|].
    destruct (Z.eqb_spec (expectCode tc) 0); [contradiction|].
    destruct (decide (StatusCode resp = expectCode tc)) as [->|Hne'].
    - now rewrite Z.eqb_refl.
    - destruct (Z.eqb_spec (StatusCode resp) (expectCode tc)); [contradiction|].
      apply report_fail. }
  intros _. apply bind_ext.
  { unfold assert_headers. apply for_range_ext. intros kv s.
    unfold assert_header.
    destruct (decide (http.Header_Get (resp_Header resp) kv.1 = kv.2)) as [->|Hne].
    - now rewrite String.eqb_refl.
    - destruct (String.eqb_spec (http.Header_Get (resp_Header resp) kv.1) kv.2);
        [contradiction|].
      cbn [negb]. apply bind_ext; [apply report_fail | reflexivity]. }
  intros _. apply bind_ext.
  { intros s. unfold assert_raw, bytes_Equal.
    destruct (expectRaw tc) as [want|]; [|reflexivity].
    destruct (decide (want = body_data (resp_Body resp))) as [->|Hne].
    - now rewrite String.eqb_refl.
    - destruct (String.eqb_spec want (body_data (resp_Body resp))); [contradiction|].
      apply report_fail. }
  intros _. apply bind_ext.
  { intros s. unfold assert_structured.
    destruct (expectJSON tc) as [want|]; [|reflexivity].
    destruct (json_Unmarshal env _ _) as [got [e|]]; [reflexivity|].
    destruct (cmp_Diff env want got (outputCmpOpt tc)) as [d|v]; [|reflexivity].
    destruct (decide (d = "")) as [->|Hne]; [reflexivity|].
    destruct (String.eqb_spec d ""); [contradiction|]. apply report_fail. }
  intros _ s. unfold capture.
  destruct (grabOutput tc) as [p|]; [|reflexivity].
  unfold mbind, Run_bind, load. cbn.
  destruct (heap s !! p) as [cur|]; [|reflexivity].
  destruct (json_Unmarshal env (body_data (resp_Body resp)) cur) as [v [e|]];
    reflexivity.
Qed.


(** ** The steps, one by one *)

Section Steps.
Context (env : Env) (tc : testCase) (resp : Response).
Implicit Types (s : State).

Lemma assert_status_ok s :
  code_ok tc resp -> assert_status tc resp s = (Returns tt, s).
Proof.
  intros [H|H]; unfold assert_status.
  - now rewrite decide_True.
  - destruct (decide (expectCode tc = 0)); [reflexivity|]. now rewrite decide_True.
Qed.

Lemma assert_status_bad s :
  ~ code_ok tc resp ->
  assert_status tc resp s =
  (if fatalFailure tc then Goexit else Returns tt,
   failing (logged s [msg_code tc (StatusCode resp)])).
Proof.
  intros H. unfold assert_status, code_ok in *.
  rewrite !decide_False by tauto. apply report_eval.
Qed.

Lemma assert_header_ok kv s :
  header_ok resp kv -> assert_header env tc resp kv s = (Returns tt, s).
Proof. intros H. unfold assert_header. now rewrite decide_True. Qed.

Lemma assert_header_bad kv s :
  ~ header_ok resp kv ->
  assert_header env tc resp kv s =
  if fatalFailure tc
  then (Goexit,
        failing (logged s [msg_header tc kv.1 kv.2
                             (http.Header_Get (resp_Header resp) kv.1)]))
  else (Returns tt,
        failing (logged s [msg_header tc kv.1 kv.2
                             (http.Header_Get (resp_Header resp) kv.1);
                           msg_dump env (resp_Header resp)])).
Proof.
  intros H. unfold assert_header. rewrite decide_False by exact H.
  unfold mbind, Run_bind. rewrite report_eval.
  destruct (fatalFailure tc); [reflexivity|].
  unfold t_Logf, t_log, failing, logged; cbn. now rewrite <- app_assoc.
Qed.

Lemma headers_list_ok l s :
  Forall (header_ok resp) l ->
  for_range l (assert_header env tc resp) s = (Returns tt, s).
Proof.
  induction 1 as [|kv l Hkv _ IH]; [reflexivity|]. simpl.
  erewrite bind_returns by (apply assert_header_ok; exact Hkv). exact IH.
Qed.

Lemma headers_list_continue l s :
  fatalFailure tc = false ->
  for_range l (assert_header env tc resp) s =
  (Returns tt,
   {| output := output s ++ header_entries env tc resp l;
      failed := if decide (Forall (header_ok resp) l) then failed s else true;
      heap := heap s |}).
Proof.
  intros Hff. revert s. induction l as [|kv l IH]; intros s.
  - cbn [for_range]. unfold header_entries. cbn [flat_map].
    rewrite app_nil_r, decide_True by constructor. now destruct s.
  - cbn [for_range]. unfold header_entries. cbn [flat_map].
    fold (header_entries env tc resp l).
    destruct (decide (header_ok resp kv)) as [Hok|Hbad].
    + erewrite bind_returns by (apply assert_header_ok; exact Hok).
      rewrite IH. cbn [app]. f_equal. f_equal.
      destruct (decide (Forall (header_ok resp) l)) as [Hl|Hl].
      * now rewrite decide_True by (constructor; assumption).
      * rewrite decide_False; [reflexivity|]. intros H. now inversion H.
    + erewrite bind_returns
        by (rewrite assert_header_bad, Hff by exact Hbad; reflexivity).
      rewrite IH. unfold failing, logged. cbn [output failed heap].
      rewrite <- app_assoc. f_equal. f_equal.
      rewrite (decide_False (P := Forall _ (kv :: l)));
        [now destruct (decide _) | intros H; now inversion H].
Qed.

Lemma headers_list_abort l s :
  fatalFailure tc = true -> ~ Forall (header_ok resp) l ->
  exists kv, kv ∈ l /\ ~ header_ok resp kv /\
    for_range l (assert_header env tc resp) s =
    (Goexit, failing (logged s [msg_header tc kv.1 kv.2
                                  (http.Header_Get (resp_Header resp) kv.1)])).
Proof.
  intros Hff. induction l as [|kv l IH]; intros Hbad.
  - exfalso. apply Hbad. constructor.
  - destruct (decide (header_ok resp kv)) as [Hok|Hkv].
    + destruct IH as (kv' & Hin & Hkv' & Hrun).
      { intros Hl. apply Hbad. now constructor. }
      exists kv'. split; [now right|]. split; [exact Hkv'|].
      simpl. erewrite bind_returns by (apply assert_header_ok; exact Hok).
      exact Hrun.
    + exists kv. split; [now left|]. split; [exact Hkv|].
      simpl. erewrite bind_goexit; [reflexivity|].
      rewrite assert_header_bad, Hff by exact Hkv. reflexivity.
Qed.

Lemma range_headers_ok :
  Forall (header_ok resp) (range env (expectHeaders tc)) <-> headers_ok tc resp.
Proof.
  rewrite Forall_forall. unfold headers_ok. split.
  - intros H k v Hkv. apply H.
    rewrite (range_perm env). now apply elem_of_map_to_list.
  - intros H [k v] Hin. apply H.
    rewrite (range_perm env) in Hin. now apply elem_of_map_to_list in Hin.
Qed.

Lemma assert_headers_ok s :
  headers_ok tc resp -> assert_headers env tc resp s = (Returns tt, s).
Proof. intros H. apply headers_list_ok, range_headers_ok, H. Qed.

Lemma assert_headers_continue s :
  fatalFailure tc = false ->
  assert_headers env tc resp s =
  (Returns tt,
   {| output := output s ++ header_entries env tc resp (range env (expectHeaders tc));
      failed := if decide (headers_ok tc resp) then failed s else true;
      heap := heap s |}).
Proof.
  intros Hff. unfold assert_headers. rewrite headers_list_continue by exact Hff.
  f_equal. f_equal.
  destruct (decide (Forall _ _)) as [H|H]; destruct (decide (headers_ok tc resp)) as [H'|H'];
    try reflexivity; exfalso; rewrite range_headers_ok in H; tauto.
Qed.

Lemma assert_headers_abort s :
  fatalFailure tc = true -> ~ headers_ok tc resp ->
  exists k v, expectHeaders tc !! k = Some v /\ ~ header_ok resp (k, v) /\
    assert_headers env tc resp s =
    (Goexit, failing (logged s [msg_header tc k v
                                  (http.Header_Get (resp_Header resp) k)])).
Proof.
  intros Hff Hbad. rewrite <- range_headers_ok in Hbad.
  destruct (headers_list_abort _ s Hff Hbad) as ([k v] & Hin & Hkv & Hrun).
  exists k, v. split; [|split; assumption].
  rewrite (range_perm env) in Hin. now apply elem_of_map_to_list in Hin.
Qed.

Lemma assert_raw_ok s :
  raw_ok tc resp -> assert_raw tc resp s = (Returns tt, s).
Proof.
  intros H. unfold assert_raw, raw_ok in *.
  destruct (expectRaw tc) as [want|]; [|reflexivity].
  now rewrite decide_True by (apply H; reflexivity).
Qed.

Lemma assert_raw_bad want s :
  expectRaw tc = Some want -> want <> body_data (resp_Body resp) ->
  assert_raw tc resp s =
  (if fatalFailure tc then Goexit else Returns tt,
   failing (logged s [msg_raw tc want (body_data (resp_Body resp))])).
Proof.
  intros H Hne. unfold assert_raw. rewrite H, decide_False by exact Hne.
  apply report_eval.
Qed.

Lemma assert_structured_unset s :
  expectJSON tc = None -> assert_structured env tc resp s = (Returns tt, s).
Proof. intros H. unfold assert_structured. now rewrite H. Qed.

Lemma assert_structured_ok s :
  structured_ok env tc resp -> assert_structured env tc resp s = (Returns tt, s).
Proof.
  intros H. unfold assert_structured, structured_ok in *.
  destruct (expectJSON tc) as [want|]; [|reflexivity].
  destruct (H want eq_refl) as (got & -> & ->). reflexivity.
Qed.

Lemma assert_structured_diff want got diff s :
  expectJSON tc = Some want ->
  json_Unmarshal env (body_data (resp_Body resp))
    (reflect.Zero (reflect.TypeOf want)) = (got, None) ->
  cmp_Diff env want got (outputCmpOpt tc) = inl diff -> diff <> "" ->
  assert_structured env tc resp s =
  (if fatalFailure tc then Goexit else Returns tt,
   failing (logged s [msg_diff tc diff])).
Proof.
  intros Hwant Hdec Hdiff Hne. unfold assert_structured.
  rewrite Hwant, Hdec, Hdiff, decide_False by exact Hne. apply report_eval.
Qed.

Lemma assert_structured_decodes s :
  structured_decodes env tc resp -> fatalFailure tc = false ->
  exists l, assert_structured env tc resp s =
            (Returns tt, {| output := output s ++ l;
                            failed := match l with [] => failed s | _ => true end;
                            heap := heap s |}).
Proof.
  intros H Hff. unfold assert_structured, structured_decodes in *.
  destruct (expectJSON tc) as [want|].
  - destruct (H want eq_refl) as (got & d & -> & ->).
    destruct (decide (d = "")).
    + exists []. rewrite app_nil_r. now destruct s.
    + exists [msg_diff tc d]. now rewrite report_eval, Hff.
  - exists []. rewrite app_nil_r. now destruct s.
Qed.

Lemma capture_unset s :
  grabOutput tc = None -> capture env tc resp s = (Returns tt, s).
Proof. intros H. unfold capture. now rewrite H. Qed.

Lemma capture_eval p cur s :
  grabOutput tc = Some p -> heap s !! p = Some cur ->
  capture env tc resp s =
  let decoded := json_Unmarshal env (body_data (resp_Body resp)) cur in
  let s' := {| output := output s; failed := failed s;
               heap := <[p := decoded.1]> (heap s) |} in
  match decoded.2 with
  | Some err => (Goexit, failing (logged s' [Sprintln [err]]))
  | None => (Returns tt, s')
  end.
Proof.
  intros Hp Hcur. unfold capture. rewrite Hp, Hcur. cbn zeta.
  destruct (json_Unmarshal env (body_data (resp_Body resp)) cur).2; reflexivity.
Qed.

End Steps.

(** ** The log only grows, and a recorded failure stays *)

Lemma extends_refl s : extends s s.
Proof. split; [reflexivity | auto]. Qed.

Lemma extends_trans s1 s2 s3 : extends s1 s2 -> extends s2 s3 -> extends s1 s3.
Proof. intros [H1 F1] [H2 F2]. split; [etrans; eassumption | auto]. Qed.

Lemma extends_failing_logged s l : extends s (failing (logged s l)).
Proof. split; [now apply prefix_app_r | reflexivity]. Qed.

Lemma grows_ret {A} (a : A) : grows (mret a).
Proof. intros s. apply extends_refl. Qed.

Lemma grows_bind {A B} (m : Run A) (k : A -> Run B) :
  grows m -> (forall a, grows (k a)) -> grows (m ≫= k).
Proof.
  intros Hm Hk s. specialize (Hm s). unfold mbind, Run_bind.
  destruct (m s) as [[a| |v] s']; simpl in *; try exact Hm.
  eapply extends_trans; [exact Hm | apply Hk].
Qed.

Lemma grows_t_log msg : grows (t_log msg).
Proof. intros s. split; [now apply prefix_app_r | auto]. Qed.

Lemma grows_t_Fail : grows t_Fail.
Proof. intros s. split; [reflexivity | auto]. Qed.

Lemma grows_t_FailNow : grows t_FailNow.
Proof. intros s. split; [reflexivity | auto]. Qed.

Lemma grows_report tc msg : grows (report tc msg).
Proof.
  apply grows_bind; [apply grows_t_log|]. intros _.
  destruct (fatalFailure tc); [apply grows_t_FailNow | apply grows_t_Fail].
Qed.

Lemma grows_t_Fatal args : grows (t_Fatal args).
Proof. apply grows_bind; [apply grows_t_log | intros _; apply grows_t_FailNow]. Qed.

Lemma grows_for_range {A} (l : list A) (body : A -> Run unit) :
  (forall x, grows (body x)) -> grows (for_range l body).
Proof.
  intros H. induction l; simpl; [apply grows_ret|].
  apply grows_bind; auto.
Qed.

Lemma grows_assert_status tc resp : grows (assert_status tc resp).
Proof.
  unfold assert_status. repeat case_decide; auto using grows_ret, grows_report.
Qed.

Lemma grows_assert_headers env tc resp : grows (assert_headers env tc resp).
Proof.
  apply grows_for_range. intros kv. unfold assert_header.
  case_decide; [apply grows_ret|].
  apply grows_bind; [apply grows_report | intros _; apply grows_t_log].
Qed.

Lemma grows_assert_raw tc resp : grows (assert_raw tc resp).
Proof.
  unfold assert_raw. destruct (expectRaw tc); [|apply grows_ret].
  case_decide; auto using grows_ret, grows_report.
Qed.

Lemma grows_assert_structured env tc resp : grows (assert_structured env tc resp).
Proof.
  unfold assert_structured. destruct (expectJSON tc); [|apply grows_ret].
  destruct (json_Unmarshal _ _ _) as [got [e|]]; [apply grows_t_Fatal|].
  destruct (cmp_Diff _ _ _ _) as [d|v]; [|intros st; apply extends_refl].
  case_decide; auto using grows_ret, grows_report.
Qed.

Lemma grows_capture env tc resp : grows (capture env tc resp).
Proof.
  unfold capture. destruct (grabOutput tc) as [p|]; [|apply grows_ret].
  intros s. destruct (heap s !! p) as [cur|]; [|apply grows_t_Fatal].
  cbn zeta. destruct (json_Unmarshal _ _ _).2.
  - split; cbn; [now apply prefix_app_r | reflexivity].
  - split; cbn; [reflexivity | auto].
Qed.

Create HintDb grows.

#[local] Hint Resolve grows_ret grows_bind grows_assert_status
  grows_assert_headers grows_assert_raw grows_assert_structured
  grows_capture : grows.

Lemma extends_elem_of s s' msg :
  extends s s' -> msg ∈ output s -> msg ∈ output s'.
Proof.
  intros [[l Hl] _] H. rewrite Hl. apply elem_of_app. left. exact H.
Qed.

(** ** Requests and their headers *)

Lemma fn_request_eval (env : Env) (tc : testCase) :
  fn_request env tc =
  let m := if String.eqb (method tc) "" then "GET" else method tc in
  match NewRequest_check env m (URL (server tc) +:+ path tc) with
  | Some err => inr err
  | None =>
      inl (foldl (fun req mut => mut req)
             {| req_Method := m; req_URL := URL (server tc) +:+ path tc;
                req_Header := ∅; req_Body := input tc |} (mutateReq tc))
  end.
Proof.
  unfold fn_request, http_NewRequest. cbn zeta.
  now destruct (NewRequest_check env _ _).
Qed.

Lemma values_insert_eq (h : Header) (k : string) (l : list string) :
  http.values (<[k := l]> h) k = l.
Proof. unfold http.values. now rewrite lookup_insert_eq. Qed.

Lemma Header_Get_Content_Type (h : Header) :
  http.Header_Get h "Content-Type" = match http.values h "Content-Type" with
                                     | [] => ""
                                     | v :: _ => v
                                     end.
Proof. reflexivity. Qed.

(** What an option of [header_option] does to the test case: one more
    mutator at the end of the queue, which sets the Content-Type or adds
    to another key. *)
Lemma header_option_spec (env : Env) (o : TestOption) (k v : string)
  (tc tc' : testCase) :
  header_option env o k v -> o tc = Done tc' ->
  exists mut,
    mutateReq tc' = mutateReq tc ++ [mut]
    /\ method tc' = method tc /\ path tc' = path tc /\ server tc' = server tc
    /\ (k <> "Content-Type" -> input tc' = input tc)
    /\ forall r, req_Header (mut r) =
         if decide (k = "Content-Type")
         then <["Content-Type" := [v]]> (req_Header r)
         else <[k := http.values (req_Header r) k ++ [v]]> (req_Header r).
Proof.
  intros Ho Happ. destruct Ho as [name value | x | vals].
  - unfold WithHeader in Happ. injection Happ as <-.
    eexists. split; [reflexivity|]. repeat split; try reflexivity.
    intros r.
    destruct (String.eqb_spec (http.CanonicalHeaderKey name) "Content-Type") as [E|E].
    + rewrite decide_True by exact E. cbn. unfold http.Header_Set.
      unfold http.CanonicalHeaderKey in E. now rewrite E.
    + rewrite decide_False by exact E. reflexivity.
  - unfold WithJSONInput in Happ.
    destruct (json_Marshal env _) as [raw|e]; [|discriminate].
    injection Happ as <-. eexists. split; [reflexivity|].
    repeat split; try reflexivity. intros H. now contradiction H.
  - unfold WithFormInput in Happ. injection Happ as <-.
    eexists. split; [reflexivity|].
    repeat split; try reflexivity. intros H. now contradiction H.
Qed.

Lemma fn_request_two_more (env : Env) (tc tc2 : testCase) (req0 : Request)
  (mut1 mut2 : Request -> Request) :
  method tc2 = method tc -> path tc2 = path tc -> server tc2 = server tc ->
  mutateReq tc2 = mutateReq tc ++ [mut1; mut2] ->
  fn_request env tc = inl req0 ->
  exists req1, fn_request env tc2 = inl (mut2 (mut1 req1))
    /\ (input tc2 = input tc -> req1 = req0).
Proof.
  intros Hm Hp Hs Hq. rewrite !fn_request_eval. cbn zeta.
  rewrite Hm, Hp, Hs, Hq.
  destruct (NewRequest_check env _ _); [discriminate|].
  intros [= <-]. rewrite foldl_app. cbn [foldl].
  eexists. split; [reflexivity|]. now intros ->.
Qed.

(** C2 (as amended).  Two options that queue a mutator for the same
    header key, applied in that order: when the key is Content-Type the
    request carries the value of the second alone, which is also what
    [Header.Get] answers; for every other key the two values are added,
    in order, after those the request already had. *)
Theorem last_Content_Type_mutator_wins (env : Env) (tc tc1 tc2 : testCase)
  (o1 o2 : TestOption) (k v1 v2 : string) (req0 : Request) :
  header_option env o1 k v1 -> header_option env o2 k v2 ->
  o1 tc = Done tc1 -> o2 tc1 = Done tc2 ->
  fn_request env tc = inl req0 ->
  exists req,
    fn_request env tc2 = inl req
    /\ (k = "Content-Type" ->
        http.values (req_Header req) k = [v2]
        /\ http.Header_Get (req_Header req) k = v2)
    /\ (k <> "Content-Type" ->
        http.values (req_Header req) k
        = http.values (req_Header req0) k ++ [v1; v2]).
Proof.
  intros H1 H2 Ho1 Ho2 Hreq.
  destruct (header_option_spec _ _ _ _ _ _ H1 Ho1)
    as (mut1 & Hq1 & Hm1 & Hp1 & Hs1 & Hi1 & Hmut1).
  destruct (header_option_spec _ _ _ _ _ _ H2 Ho2)
    as (mut2 & Hq2 & Hm2 & Hp2 & Hs2 & Hi2 & Hmut2).
  destruct (fn_request_two_more env tc tc2 req0 mut1 mut2) as (req1 & Hreq2 & Hsame);
    try congruence.
  { rewrite Hq2, Hq1, <- app_assoc. reflexivity. }
  exists (mut2 (mut1 req1)). split; [exact Hreq2|]. split.
  - intros ->. rewrite Hmut2, decide_True by reflexivity.
    rewrite Header_Get_Content_Type, values_insert_eq. split; reflexivity.
  - intros Hk. rewrite Hmut2, Hmut1, !decide_False by exact Hk.
    rewrite !values_insert_eq, <- app_assoc.
    rewrite Hsame by (rewrite Hi2, Hi1 by exact Hk; reflexivity).
    reflexivity.
Qed.

Lemma last_Content_Type_mutator_wins_witness :
  exists tc1, WithHeader "content-type" "text/csv" sample_tc = Done tc1 /\
  exists tc2, WithJSONInput sample_env (any_value (VBool true)) tc1 = Done tc2 /\
  exists req, fn_request sample_env tc2 = inl req
    /\ http.values (req_Header req) "Content-Type" = ["application/json"]
    /\ http.Header_Get (req_Header req) "Content-Type" = "application/json".
Proof.
  eexists. split; [reflexivity|]. eexists. split; [reflexivity|].
  edestruct last_Content_Type_mutator_wins
    with (env := sample_env) (tc := sample_tc)
         (o1 := WithHeader "content-type" "text/csv")
         (o2 := WithJSONInput sample_env (any_value (VBool true)))
         (k := "Content-Type") (v1 := "text/csv") (v2 := "application/json")
         (req0 := {| req_Method := "POST";
                     req_URL := "http://127.0.0.1:8080/greet";
                     req_Header := ∅; req_Body := None |})
    as (req & Hreq & Hct & _);
    [ exact (header_option_WithHeader sample_env "content-type" "text/csv")
    | exact (header_option_WithJSONInput sample_env (any_value (VBool true)))
    | reflexivity | reflexivity | reflexivity | ].
  exists req. split; [exact Hreq | exact (Hct eq_refl)].
Defined.

(** C2 (as stated) fails: two [WithHeader] on the key [X-Id] leave a
    request for which [Header.Get] answers the first value. *)
Lemma last_mutator_wins_fails : ~ last_mutator_wins_every_key.
Proof.
  intros H.
  eassert (E1 : WithHeader "X-Id" "1" sample_tc = Done _) by reflexivity.
  lazymatch type of E1 with
  | _ = Done ?tc1 =>
      eassert (E2 : WithHeader "X-Id" "2" tc1 = Done _) by reflexivity
  end.
  lazymatch type of E2 with
  | _ = Done ?tc2 =>
      eassert (E3 : fn_request sample_env tc2 = inl _) by reflexivity
  end.
  pose proof (H _ _ _ _ _ _ _ _ _ _
                (header_option_WithHeader sample_env "X-Id" "1")
                (header_option_WithHeader sample_env "X-Id" "2")
                E1 E2 E3) as E.
  vm_compute in E. discriminate E.
Qed.

(** C9.  The mutator that [WithHeader] queues sets the header, replacing
    what was there, exactly when the name canonicalizes to Content-Type,
    and otherwise adds the value to those of the canonical key; so two
    [WithHeader] with one name that is not Content-Type leave a request
    that carries both values, in order, for that key. *)
Theorem WithHeader_sets_Content_Type_adds_others (env : Env) (tc : testCase)
  (name v1 v2 : string) (req0 : Request) :
  fn_request env tc = inl req0 ->
  let k := http.CanonicalHeaderKey name in
  exists mut1 mut2 tc1 tc2 req,
    WithHeader name v1 tc = Done tc1
    /\ mutateReq tc1 = mutateReq tc ++ [mut1]
    /\ (forall r, req_Header (mut1 r) =
          if decide (k = "Content-Type")
          then <["Content-Type" := [v1]]> (req_Header r)
          else <[k := http.values (req_Header r) k ++ [v1]]> (req_Header r))
    /\ WithHeader name v2 tc1 = Done tc2
    /\ mutateReq tc2 = mutateReq tc ++ [mut1; mut2]
    /\ fn_request env tc2 = inl req
    /\ http.values (req_Header req) k =
         if decide (k = "Content-Type") then [v2]
         else http.values (req_Header req0) k ++ [v1; v2].
Proof.
  intros Hreq k.
  destruct (header_option_spec env (WithHeader name v1) k v1 tc _
              (header_option_WithHeader env name v1) eq_refl)
    as (mut1 & Hq1 & Hm1 & Hp1 & Hs1 & Hi1 & Hmut1).
  set (tc1 := set_mutateReq tc _) in *.
  destruct (header_option_spec env (WithHeader name v2) k v2 tc1 _
              (header_option_WithHeader env name v2) eq_refl)
    as (mut2 & Hq2 & Hm2 & Hp2 & Hs2 & Hi2 & Hmut2).
  set (tc2 := set_mutateReq tc1 _) in *.
  assert (Hq : mutateReq tc2 = mutateReq tc ++ [mut1; mut2]).
  { rewrite Hq2, Hq1, <- app_assoc. reflexivity. }
  destruct (fn_request_two_more env tc tc2 req0 mut1 mut2) as (req1 & Hreq2 & Hsame);
    try congruence.
  exists mut1, mut2, tc1, tc2, (mut2 (mut1 req1)).
  repeat (split; [first [reflexivity | assumption]|]).
  rewrite Hmut2. destruct (decide (k = "Content-Type")) as [E|E].
  - rewrite <- E at 1. apply values_insert_eq.
  - rewrite values_insert_eq, Hmut1, values_insert_eq, <- app_assoc.
    now rewrite Hsame by reflexivity.
Qed.

Lemma WithHeader_sets_Content_Type_adds_others_witness :
  exists tc1 tc2 req,
    WithHeader "x-trace" "a" sample_tc = Done tc1
    /\ WithHeader "x-trace" "b" tc1 = Done tc2
    /\ fn_request sample_env tc2 = inl req
    /\ http.values (req_Header req) "X-Trace" = ["a"; "b"].
Proof.
  edestruct WithHeader_sets_Content_Type_adds_others
    with (env := sample_env) (tc := sample_tc) (name := "x-trace")
         (v1 := "a") (v2 := "b")
         (req0 := {| req_Method := "POST";
                     req_URL := "http://127.0.0.1:8080/greet";
                     req_Header := ∅; req_Body := None |})
    as (mut1 & mut2 & tc1 & tc2 & req & H1 & _ & _ & H2 & _ & Hreq & Hv);
    [reflexivity|].
  exists tc1, tc2, req. repeat (split; [assumption|]). exact Hv.
Defined.

Lemma Values_Encode_name_greg :
  url.Values_Encode {[ "name" := ["greg"] ]} = "name=greg".
Proof. vm_compute. reflexivity. Qed.

(** C6.  The form-encoded body option with the one key [name] and its
    one value [greg]: the body reads [name=greg], and one mutator is
    queued, which sets the Content-Type to
    [application/x-www-form-urlencoded]. *)
Theorem WithFormInput_name_greg (tc : testCase) :
  exists tc' mut,
    WithFormInput {[ "name" := ["greg"] ]} tc = Done tc'
    /\ input tc' = Some (strings_NewReader "name=greg")
    /\ mutateReq tc' = mutateReq tc ++ [mut]
    /\ forall r,
         req_Header (mut r)
         = <["Content-Type" := ["application/x-www-form-urlencoded"]]> (req_Header r)
         /\ http.Header_Get (req_Header (mut r)) "Content-Type"
            = "application/x-www-form-urlencoded".
Proof.
  eexists _, _. split; [reflexivity|]. split.
  - cbn. now rewrite Values_Encode_name_greg.
  - split; [reflexivity|]. intros r. split; [reflexivity|].
    cbn [req_Header]. unfold http.Header_Set.
    rewrite Header_Get_Content_Type.
    change (textproto.CanonicalMIMEHeaderKey "Content-Type") with "Content-Type".
    now rewrite values_insert_eq.
Qed.

(** What [WithJSONInput] does: the body becomes the encoding of the
    reader the test case held before, whatever the argument, and one
    mutator is queued, which sets the Content-Type to
    [application/json]. *)
Lemma WithJSONInput_eval (env : Env) (v : any) (tc : testCase) (raw : string) :
  json_Marshal env (any_of_Reader (input tc)) = inl raw ->
  exists tc' mut,
    WithJSONInput env v tc = Done tc'
    /\ input tc' = Some (bytes_NewReader raw)
    /\ mutateReq tc' = mutateReq tc ++ [mut]
    /\ forall r,
         req_Header (mut r)
         = <["Content-Type" := ["application/json"]]> (req_Header r).
Proof.
  intros H. unfold WithJSONInput. rewrite H.
  eexists _, _. repeat split; reflexivity.
Qed.

(** C1 at a failing input.  On a fresh test case [WithJSONInput(true)]
    leaves the body [null], the encoding of the [nil] reader that the
    test case held, and not [true], the encoding of its argument. *)
Theorem WithJSONInput_ignores_its_argument (env : Env) (h : HTTP)
  (method path : string) :
  json_Marshal env any_nil = inl "null" ->
  json_Marshal env (any_value (VBool true)) = inl "true" ->
  exists tc',
    WithJSONInput env (any_value (VBool true)) (new_testCase h method path)
    = Done tc'
    /\ input tc' = Some (bytes_NewReader "null")
    /\ forall raw, json_Marshal env (any_value (VBool true)) = inl raw ->
                   input tc' <> Some (bytes_NewReader raw).
Proof.
  intros Hnil Htrue.
  destruct (WithJSONInput_eval env (any_value (VBool true))
              (new_testCase h method path) "null" Hnil)
    as (tc' & mut & Happ & Hin & _).
  exists tc'. split; [exact Happ|]. split; [exact Hin|].
  intros raw Hraw. rewrite Htrue in Hraw. injection Hraw as <-.
  rewrite Hin. discriminate.
Qed.

Lemma WithJSONInput_ignores_its_argument_witness :
  exists tc',
    WithJSONInput sample_env (any_value (VBool true)) sample_tc = Done tc'
    /\ input tc' = Some (bytes_NewReader "null")
    /\ forall raw, sample_Marshal (any_value (VBool true)) = inl raw ->
                   input tc' <> Some (bytes_NewReader raw).
Proof.
  apply (WithJSONInput_ignores_its_argument sample_env
           (New (serving (answer 200 "" None))) "POST" "/greet");
    reflexivity.
Defined.

(** ** The non-empty-match directive *)

Lemma substring_all (s : string) : String.substring 0 (String.length s) s = s.
Proof. induction s as [|c s IH]; simpl; [reflexivity | now rewrite IH]. Qed.

Lemma Path_String_field (name : string) : cmp.Path_String [name] = name.
Proof.
  unfold cmp.Path_String, strings_TrimPrefix.
  change (String.concat "" (map _ [name])) with (String "."%char name).
  simpl. rewrite Nat.sub_0_r.
  replace (String.prefix "" name) with true by (now destruct name).
  apply substring_all.
Qed.

Lemma Path_String_root : cmp.Path_String [] = "".
Proof. reflexivity. Qed.

(** [NotEmpty] on a string field: the two structs are reported equal
    when both strings are non-empty, and also, by the comparison that
    applies when the filter does not, when both are equal. *)
Lemma NotEmpty_string_field (name a b : string) :
  name <> "" ->
  cmp.Equal (VStruct [(name, VString a)]) (VStruct [(name, VString b)])
    [NotEmpty name]
  = cmp.Reports (bool_decide ((a <> "" /\ b <> "") \/ a = b)).
Proof.
  intros Hname. unfold cmp.Equal.
  cbn [reflect.TypeOf reflect.Type_eqb map fst snd]. rewrite String.eqb_refl.
  cbn [andb]. cbn [cmp.compareAny].
  assert (Hroot : forall x y, cmp.tryOptions [NotEmpty name] [] x y = None).
  { intros x y. unfold cmp.tryOptions, NotEmpty.
    cbn [cmp.Options_filter cmp.Option_filter]. rewrite Path_String_root.
    destruct (String.eqb_spec "" name) as [E|E]; [now contradiction Hname|].
    reflexivity. }
  rewrite Hroot. cbn [fst snd app]. cbn [cmp.compareAny].
  unfold cmp.tryOptions, NotEmpty. cbn [cmp.Options_filter cmp.Option_filter].
  rewrite Path_String_field, String.eqb_refl.
  cbn [reflect.TypeOf reflect.Zero reflect.DeepEqual].
  destruct (String.eqb_spec a "") as [Ea|Ea], (String.eqb_spec b "") as [Eb|Eb];
    cbn [negb andb cmp.both];
    destruct (String.eqb_spec a b) as [Eab|Eab];
    cbn [andb]; f_equal; symmetry;
    first [ apply bool_decide_eq_true_2; tauto
          | apply bool_decide_eq_false_2; intuition congruence ].
Qed.

(** C7 at its examples and at a failing input.  With [NotEmpty] on the
    field, [x] against [y] is reported equal and the empty string
    against [y] is not; but the empty string against the empty string is
    reported equal too, although neither differs from the zero value. *)
Theorem NotEmpty_reports_two_zero_values_equal :
  cmp.Equal (VStruct [("ID", VString "x")]) (VStruct [("ID", VString "y")])
    [NotEmpty "ID"] = cmp.Reports true
  /\ cmp.Equal (VStruct [("ID", VString "")]) (VStruct [("ID", VString "y")])
       [NotEmpty "ID"] = cmp.Reports false
  /\ cmp.Equal (VStruct [("ID", VString "")]) (VStruct [("ID", VString "")])
       [NotEmpty "ID"] = cmp.Reports true
  /\ reflect.DeepEqual (VString "")
       (reflect.Zero (reflect.TypeOf (VString ""))) = true.
Proof. repeat split; reflexivity. Qed.

(** ** Reaching a step, and what follows a recorded failure *)

Lemma bind_extends {A B} (m : Run A) (k : A -> Run B) (s s1 : State) (o : Outcome A) :
  m s = (o, s1) -> (forall a, grows (k a)) -> extends s1 ((m ≫= k) s).2.
Proof.
  intros Hm Hk. unfold mbind, Run_bind. rewrite Hm.
  destruct o; try apply extends_refl. apply Hk.
Qed.

Lemma recorded (s1 s' : State) (msg : string) :
  extends (failing (logged s1 [msg])) s' ->
  failed s' = true /\ msg ∈ output s'.
Proof.
  intros H. split; [now apply H|].
  eapply extends_elem_of; [exact H|]. cbn. apply elem_of_app. right.
  now apply list_elem_of_singleton.
Qed.

Lemma read_and_log_eval (resp : Response) (s : State) (k : Run unit) :
  (read_and_log resp ;; k) s =
  k {| output := output s ++ read_error_entry resp ++ [output_entry resp];
       failed := match body_err (resp_Body resp) with
                 | Some _ => true
                 | None => failed s
                 end;
       heap := heap s |}.
Proof. reflexivity. Qed.

Section Reaching.
Context (env : Env) (tc : testCase) (resp : Response).

Lemma status_returns (s : State) :
  fatalFailure tc = false \/ code_ok tc resp ->
  exists s', assert_status tc resp s = (Returns tt, s')
             /\ extends s s' /\ heap s' = heap s.
Proof.
  intros H. destruct (decide (code_ok tc resp)) as [Hok|Hbad].
  - exists s. rewrite assert_status_ok by exact Hok.
    split; [reflexivity|]. split; [apply extends_refl | reflexivity].
  - destruct H as [Hff|Hok]; [|contradiction].
    eexists. rewrite assert_status_bad, Hff by exact Hbad.
    split; [reflexivity|]. split; [apply extends_failing_logged | reflexivity].
Qed.

Lemma headers_returns (s : State) :
  fatalFailure tc = false \/ headers_ok tc resp ->
  exists s', assert_headers env tc resp s = (Returns tt, s')
             /\ extends s s' /\ heap s' = heap s.
Proof.
  intros H. destruct (decide (headers_ok tc resp)) as [Hok|Hbad].
  - exists s. rewrite assert_headers_ok by exact Hok.
    split; [reflexivity|]. split; [apply extends_refl | reflexivity].
  - destruct H as [Hff|Hok]; [|contradiction].
    eexists. rewrite assert_headers_continue by exact Hff.
    split; [reflexivity|]. split; [|reflexivity].
    split; cbn; [now apply prefix_app_r | now destruct (decide _)].
Qed.

Lemma raw_returns (s : State) :
  fatalFailure tc = false \/ raw_ok tc resp ->
  exists s', assert_raw tc resp s = (Returns tt, s')
             /\ extends s s' /\ heap s' = heap s.
Proof.
  intros H. destruct (expectRaw tc) as [want|] eqn:Hraw.
  - destruct (decide (want = body_data (resp_Body resp))) as [Hok|Hbad].
    + exists s. rewrite assert_raw_ok.
      * split; [reflexivity|]. split; [apply extends_refl | reflexivity].
      * intros w Hw. congruence.
    + destruct H as [Hff|Hok].
      * eexists. rewrite (assert_raw_bad tc resp want), Hff by assumption.
        split; [reflexivity|]. split; [apply extends_failing_logged | reflexivity].
      * contradiction Hbad. now apply Hok.
  - exists s. rewrite assert_raw_ok.
    + split; [reflexivity|]. split; [apply extends_refl | reflexivity].
    + intros w Hw. congruence.
Qed.

Lemma structured_returns (s : State) :
  structured_decodes env tc resp ->
  fatalFailure tc = false \/ structured_ok env tc resp ->
  exists s', assert_structured env tc resp s = (Returns tt, s')
             /\ extends s s' /\ heap s' = heap s.
Proof.
  intros Hdec [Hff|Hok].
  - destruct (assert_structured_decodes env tc resp s Hdec Hff) as (l & Hl).
    eexists. split; [exact Hl|]. split; [|reflexivity].
    split; cbn; [now apply prefix_app_r | now destruct l].
  - exists s. rewrite assert_structured_ok by exact Hok.
    split; [reflexivity|]. split; [apply extends_refl | reflexivity].
Qed.

Lemma grows_from_headers :
  grows (assert_headers env tc resp ;; assert_raw tc resp ;;
         assert_structured env tc resp ;; capture env tc resp).
Proof. auto 10 with grows. Qed.

Lemma grows_from_raw :
  grows (assert_raw tc resp ;; assert_structured env tc resp ;; capture env tc resp).
Proof. auto 10 with grows. Qed.

Lemma grows_from_structured :
  grows (assert_structured env tc resp ;; capture env tc resp).
Proof. auto 10 with grows. Qed.

End Reaching.

(** ** Strings that occur in a message *)

Lemma append_assoc (a b c : string) : (a +:+ b) +:+ c = a +:+ b +:+ c.
Proof.
  induction a as [|x a IH]; [reflexivity|].
  change (String x ((a +:+ b) +:+ c) = String x (a +:+ b +:+ c)).
  now rewrite IH.
Qed.

Lemma append_nil_r (a : string) : a +:+ "" = a.
Proof.
  induction a as [|x a IH]; [reflexivity|].
  change (String x (a +:+ "") = String x a). now rewrite IH.
Qed.

Lemma occurs_in_head (sub after : string) : occurs_in sub (sub +:+ after).
Proof. now exists "", after. Qed.

Lemma occurs_in_refl (sub : string) : occurs_in sub sub.
Proof. exists "", "". simpl. now rewrite append_nil_r. Qed.

Lemma occurs_in_append_r (a s sub : string) :
  occurs_in sub s -> occurs_in sub (a +:+ s).
Proof.
  intros (before & after & ->). exists (a +:+ before), after.
  now rewrite append_assoc.
Qed.

(** ** The status assertion *)

Lemma msg_code_names (tc : testCase) (got : Z) :
  occurs_in (pretty (expectCode tc)) (msg_code tc got)
  /\ occurs_in (pretty got) (msg_code tc got)
  /\ occurs_in (method tc) (msg_code tc got)
  /\ occurs_in (path tc) (msg_code tc got).
Proof.
  unfold msg_code. repeat split.
  - do 5 apply occurs_in_append_r. apply occurs_in_head.
  - do 7 apply occurs_in_append_r. apply occurs_in_refl.
  - apply occurs_in_append_r. apply occurs_in_head.
  - do 3 apply occurs_in_append_r. apply occurs_in_head.
Qed.

(** C8.  With the expected code zero the status of the response is never
    looked at: the run is the same whatever the status.  With an
    expected code that is not zero and a response of another status, the
    run records a failure, and the message it logs contains the expected
    code, the actual code, the method and the path. *)
Theorem status_assertion (env : Env) (tc : testCase) (resp : Response)
  (s : State) (code : Z) :
  code <> 0 -> StatusCode resp <> code ->
  (exists tc0,
      ExpectStatusCode 0 tc = Done tc0
      /\ forall c, fn_assert env tc0 (with_status resp c) s = fn_assert env tc0 resp s)
  /\ exists tc',
      ExpectStatusCode code tc = Done tc'
      /\ let s' := (fn_assert env tc' resp s).2 in
         let msg := msg_code tc' (StatusCode resp) in
         failed s' = true /\ msg ∈ output s'
         /\ occurs_in (pretty code) msg
         /\ occurs_in (pretty (StatusCode resp)) msg
         /\ occurs_in (method tc) msg
         /\ occurs_in (path tc) msg.
Proof.
  intros Hcode Hresp. split.
  - eexists. split; [reflexivity|]. intros c.
    rewrite !fn_assert_sequence. reflexivity.
  - eexists. split; [reflexivity|]. cbn zeta.
    set (tc' := set_expectCode tc code).
    assert (H : failed (fn_assert env tc' resp s).2 = true
                /\ msg_code tc' (StatusCode resp) ∈ output (fn_assert env tc' resp s).2).
    { eapply recorded. rewrite fn_assert_sequence, read_and_log_eval.
      eapply bind_extends;
        [ apply assert_status_bad; unfold code_ok; subst tc'; cbn; tauto
        | intros _; apply grows_from_headers ]. }
    destruct H as [Hf Hm]. split; [exact Hf|]. split; [exact Hm|].
    apply (msg_code_names tc' (StatusCode resp)).
Qed.

Lemma status_assertion_witness :
  let tc' := set_expectCode sample_tc 200 in
  let s' := (fn_assert sample_env tc' (answer 405 "" None) (fresh_state ∅)).2 in
  failed s' = true
  /\ "[POST /greet] unexpected response code: want 200, got 405" ∈ output s'.
Proof.
  destruct (status_assertion sample_env sample_tc (answer 405 "" None)
              (fresh_state ∅) 200) as (_ & tc' & Htc & Hfailed & Hmsg & _);
    [discriminate | discriminate |].
  injection Htc as <-. split; [exact Hfailed | exact Hmsg].
Defined.

(** ** The raw-body assertion *)

(** C10.  [ExpectRawResponse] with [nil] leaves no raw-body check: the
    run is that of a test case whose raw expectation is met.  With a
    slice that is not [nil] the check is made when the run reaches it:
    an expectation that differs from the body is a recorded failure.  So
    the empty slice asserts an empty body: against an empty body the run
    is the same as with [nil], against any other a failure is recorded. *)
Theorem ExpectRawResponse_nil_and_empty (env : Env) (tc : testCase)
  (resp : Response) (s : State) :
  let body := body_data (resp_Body resp) in
  exists tc_nil tc_empty,
    ExpectRawResponse None tc = Done tc_nil
    /\ ExpectRawResponse (Some "") tc = Done tc_empty
    /\ fn_assert env tc_nil resp s
       = fn_assert env (set_expectRaw tc (Some body)) resp s
    /\ (forall want tc_want,
          ExpectRawResponse (Some want) tc = Done tc_want ->
          want <> body ->
          fatalFailure tc = false \/ (code_ok tc resp /\ headers_ok tc resp) ->
          let s' := (fn_assert env tc_want resp s).2 in
          failed s' = true /\ msg_raw tc want body ∈ output s')
    /\ (body = "" -> fn_assert env tc_empty resp s = fn_assert env tc_nil resp s).
Proof.
  intros body. eexists _, _. split; [reflexivity|]. split; [reflexivity|].
  assert (Hmet : forall tc1 tc2 : testCase,
            assert_raw tc1 resp = mret tt -> (forall s1, assert_raw tc2 resp s1 = (Returns tt, s1)) ->
            (forall s1, assert_status tc1 resp s1 = assert_status tc2 resp s1) ->
            (forall s1, assert_headers env tc1 resp s1 = assert_headers env tc2 resp s1) ->
            (forall s1, assert_structured env tc1 resp s1 = assert_structured env tc2 resp s1) ->
            (forall s1, capture env tc1 resp s1 = capture env tc2 resp s1) ->
            fn_assert env tc1 resp s = fn_assert env tc2 resp s).
  { intros tc1 tc2 H1 H2 Hs Hh Hj Hc. rewrite !fn_assert_sequence.
    revert s. apply bind_ext; [reflexivity|]. intros _. unfold assertions.
    apply bind_ext; [exact Hs|]. intros _.
    apply bind_ext; [exact Hh|]. intros _.
    apply bind_ext; [intros s1; rewrite H1, H2; reflexivity|]. intros _.
    apply bind_ext; [exact Hj|]. intros _. exact Hc. }
  split; [|split].
  - apply Hmet; try reflexivity.
    intros s1. apply assert_raw_ok. intros want [= <-]. reflexivity.
  - intros want tc_want [= <-] Hne Hreach. cbn zeta.
    set (tc_want := set_expectRaw tc (Some want)).
    rewrite fn_assert_sequence, read_and_log_eval. unfold assertions.
    set (s1 := Build_State _ _ _).
    destruct (status_returns tc_want resp s1) as (s2 & Hs & _ & _).
    { destruct Hreach as [H|[H _]]; [left | right]; exact H. }
    destruct (headers_returns env tc_want resp s2) as (s3 & Hh & _ & _).
    { destruct Hreach as [H|[_ H]]; [left | right]; exact H. }
    erewrite bind_returns by exact Hs.
    erewrite bind_returns by exact Hh.
    eapply recorded.
    eapply bind_extends; [|intros _; apply grows_from_structured].
    apply (assert_raw_bad tc_want resp want); [reflexivity | exact Hne].
  - intros Hbody. symmetry. apply Hmet; try reflexivity.
    intros s1. apply assert_raw_ok. intros want [= <-]. symmetry. exact Hbody.
Qed.

Lemma ExpectRawResponse_nil_and_empty_witness :
  let tc_empty := set_expectRaw sample_tc (Some "") in
  let s' := (fn_assert sample_env tc_empty (answer 200 "hello" None)
               (fresh_state ∅)).2 in
  failed s' = true /\ msg_raw sample_tc "" "hello" ∈ output s'.
Proof.
  destruct (ExpectRawResponse_nil_and_empty sample_env sample_tc
              (answer 200 "hello" None) (fresh_state ∅))
    as (tc_nil & tc_empty & _ & _ & _ & H & _).
  apply (H "" _ eq_refl); [discriminate | left; reflexivity].
Defined.

(** ** The failure policy *)

Lemma recorded_later (s3 s' : State) (msg : string) :
  extends s3 s' -> failed s3 = true -> msg ∈ output s3 ->
  failed s' = true /\ msg ∈ output s'.
Proof.
  intros H Hf Hm. split; [now apply H | eapply extends_elem_of; eassumption].
Qed.

Lemma header_entries_elem (env : Env) (tc : testCase) (resp : Response)
  (l : list (string * string)) (kv : string * string) :
  kv ∈ l -> ~ header_ok resp kv ->
  msg_header tc kv.1 kv.2 (http.Header_Get (resp_Header resp) kv.1)
    ∈ header_entries env tc resp l.
Proof.
  intros Hin Hbad. unfold header_entries. apply list_elem_of_In, in_flat_map.
  exists kv. split; [now apply list_elem_of_In|].
  rewrite decide_False by exact Hbad. now left.
Qed.

(** The state in which the assertions start: the body has been read and
    logged, a read error recorded. *)
Lemma fn_assert_after_reading (env : Env) (tc : testCase) (resp : Response)
  (s : State) :
  fn_assert env tc resp s =
  assertions env tc resp
    {| output := output s ++ read_error_entry resp ++ [output_entry resp];
       failed := match body_err (resp_Body resp) with
                 | Some _ => true
                 | None => failed s
                 end;
       heap := heap s |}.
Proof. now rewrite fn_assert_sequence, read_and_log_eval. Qed.

(** C3 (as amended).  A read error is recorded and the assertions run
    all the same, under either policy.  Under fail-fast the first
    failing one of the status, header, raw-body and structured
    assertions is recorded and the test function is left at once, the log
    ending with its message and no object written.  Without fail-fast
    every failing one is recorded, whatever failed before it. *)
Theorem failure_policy (env : Env) (tc : testCase) (resp : Response) (s : State) :
  let body := body_data (resp_Body resp) in
  let s1 := {| output := output s ++ read_error_entry resp ++ [output_entry resp];
               failed := match body_err (resp_Body resp) with
                         | Some _ => true
                         | None => failed s
                         end;
               heap := heap s |} in
  let run := fn_assert env tc resp s in
  (run = assertions env tc resp s1
   /\ forall e, body_err (resp_Body resp) = Some e ->
        failed s1 = true /\ Sprintln ["error reading body:"; e] ∈ output s1)
  /\ (fatalFailure tc = true ->
      (~ code_ok tc resp ->
       run = (Goexit, failing (logged s1 [msg_code tc (StatusCode resp)])))
      /\ (code_ok tc resp -> ~ headers_ok tc resp ->
          exists k v, expectHeaders tc !! k = Some v /\ ~ header_ok resp (k, v)
            /\ run = (Goexit,
                      failing (logged s1
                        [msg_header tc k v (http.Header_Get (resp_Header resp) k)])))
      /\ (code_ok tc resp -> headers_ok tc resp ->
          forall want, expectRaw tc = Some want -> want <> body ->
            run = (Goexit, failing (logged s1 [msg_raw tc want body])))
      /\ (code_ok tc resp -> headers_ok tc resp -> raw_ok tc resp ->
          forall want got diff,
            expectJSON tc = Some want ->
            json_Unmarshal env body (reflect.Zero (reflect.TypeOf want)) = (got, None) ->
            cmp_Diff env want got (outputCmpOpt tc) = inl diff -> diff <> "" ->
            run = (Goexit, failing (logged s1 [msg_diff tc diff]))))
  /\ (fatalFailure tc = false ->
      (~ code_ok tc resp ->
       failed run.2 = true /\ msg_code tc (StatusCode resp) ∈ output run.2)
      /\ (forall k v, expectHeaders tc !! k = Some v -> ~ header_ok resp (k, v) ->
          failed run.2 = true
          /\ msg_header tc k v (http.Header_Get (resp_Header resp) k) ∈ output run.2)
      /\ (forall want, expectRaw tc = Some want -> want <> body ->
          failed run.2 = true /\ msg_raw tc want body ∈ output run.2)
      /\ (forall want got diff,
            expectJSON tc = Some want ->
            json_Unmarshal env body (reflect.Zero (reflect.TypeOf want)) = (got, None) ->
            cmp_Diff env want got (outputCmpOpt tc) = inl diff -> diff <> "" ->
            failed run.2 = true /\ msg_diff tc diff ∈ output run.2)).
Proof.
  intros body s1 run. subst run. rewrite fn_assert_after_reading. fold s1.
  split; [split; [reflexivity|]|split].
  - intros e He. subst s1. cbn. rewrite He. split; [reflexivity|].
    unfold read_error_entry. rewrite He. apply elem_of_app. right.
    apply elem_of_app. left. now apply list_elem_of_singleton.
  - intros Hff. unfold assertions. split; [|split; [|split]].
    + intros Hbad. erewrite bind_goexit; [reflexivity|].
      now rewrite assert_status_bad, Hff.
    + intros Hc Hh.
      destruct (assert_headers_abort env tc resp s1 Hff Hh) as (k & v & Hkv & Hbad & Hrun).
      exists k, v. split; [exact Hkv|]. split; [exact Hbad|].
      erewrite bind_returns by (now apply assert_status_ok).
      erewrite bind_goexit; [reflexivity | exact Hrun].
    + intros Hc Hh want Hw Hne.
      erewrite bind_returns by (now apply assert_status_ok).
      erewrite bind_returns by (now apply assert_headers_ok).
      erewrite bind_goexit; [reflexivity|].
      now rewrite (assert_raw_bad tc resp want), Hff.
    + intros Hc Hh Hr want got diff Hw Hdec Hd Hne.
      erewrite bind_returns by (now apply assert_status_ok).
      erewrite bind_returns by (now apply assert_headers_ok).
      erewrite bind_returns by (now apply assert_raw_ok).
      erewrite bind_goexit; [reflexivity|].
      now rewrite (assert_structured_diff env tc resp want got diff), Hff.
  - intros Hff. unfold assertions.
    destruct (status_returns tc resp s1 (or_introl Hff)) as (s2 & Hs & _ & _).
    destruct (headers_returns env tc resp s2 (or_introl Hff)) as (s3 & Hh & _ & _).
    destruct (raw_returns tc resp s3 (or_introl Hff)) as (s4 & Hr & _ & _).
    split; [|split; [|split]].
    + intros Hbad. eapply recorded. eapply bind_extends.
      * rewrite assert_status_bad, Hff by exact Hbad. reflexivity.
      * intros _. apply grows_from_headers.
    + intros k v Hkv Hbad. erewrite bind_returns by exact Hs.
      eapply recorded_later.
      * eapply bind_extends;
          [apply assert_headers_continue; exact Hff | intros _; apply grows_from_raw].
      * cbn. rewrite decide_False; [reflexivity|].
        intros Hok. apply Hbad, (Hok k v Hkv).
      * cbn. apply elem_of_app. right.
        apply (header_entries_elem env tc resp _ (k, v)); [|exact Hbad].
        rewrite (range_perm env). now apply elem_of_map_to_list.
    + intros want Hw Hne. erewrite bind_returns by exact Hs.
      erewrite bind_returns by exact Hh.
      eapply recorded. eapply bind_extends.
      * rewrite (assert_raw_bad tc resp want), Hff by assumption. reflexivity.
      * intros _. apply grows_from_structured.
    + intros want got diff Hw Hdec Hd Hne. erewrite bind_returns by exact Hs.
      erewrite bind_returns by exact Hh. erewrite bind_returns by exact Hr.
      eapply recorded. eapply bind_extends.
      * rewrite (assert_structured_diff env tc resp want got diff), Hff
          by assumption. reflexivity.
      * intros _. apply grows_capture.
Qed.

Lemma failure_policy_witness :
  let tc := set_fatalFailure (set_expectCode sample_tc 200) true in
  fn_assert sample_env tc (answer 500 "oops" None) (fresh_state ∅)
  = (Goexit,
     {| output := [output_entry (answer 500 "oops" None);
                   "[POST /greet] unexpected response code: want 200, got 500"];
        failed := true; heap := ∅ |}).
Proof.
  intros tc.
  destruct (failure_policy sample_env tc (answer 500 "oops" None) (fresh_state ∅))
    as (_ & Hset & _).
  destruct (Hset eq_refl) as (Hcode & _).
  rewrite Hcode; [reflexivity|].
  unfold code_ok. cbn. intros [H|H]; discriminate H.
Defined.

(** C3 (as stated) fails at the read error: under fail-fast, with a body
    that could not be read to its end, the status assertion is still
    evaluated, and its message follows that of the read error in the
    log. *)
Lemma fail_fast_continues_after_read_error :
  let tc := set_fatalFailure (set_expectCode sample_tc 200) true in
  let resp := answer 500 "" (Some "unexpected EOF") in
  fatalFailure tc = true
  /\ body_err (resp_Body resp) = Some "unexpected EOF"
  /\ output (fn_assert sample_env tc resp (fresh_state ∅)).2
     = [ "error reading body: unexpected EOF" +:+ nl;
         "output:" +:+ nl +:+ " " +:+ nl;
         "[POST /greet] unexpected response code: want 200, got 500" ].
Proof. repeat split; reflexivity. Qed.

(** ** The capture *)

(** C5 (as amended).  With a capture target, a pointer to an object, and
    a run that is not left before the capture (the structured
    comparison, when configured, decodes the body, and under fail-fast
    no assertion fails): the body is decoded into the object, and
    without fail-fast whatever the status, header, raw-body and
    structured assertions reported; an error of this decoding is fatal,
    its message the last of the log. *)
Theorem capture_when_reached (env : Env) (tc : testCase) (resp : Response)
  (s : State) (p : nat) (cur : GoValue) :
  grabOutput tc = Some p -> heap s !! p = Some cur ->
  structured_decodes env tc resp ->
  fatalFailure tc = false
  \/ (code_ok tc resp /\ headers_ok tc resp /\ raw_ok tc resp
      /\ structured_ok env tc resp) ->
  let decoded := json_Unmarshal env (body_data (resp_Body resp)) cur in
  let run := fn_assert env tc resp s in
  heap run.2 = <[p := decoded.1]> (heap s)
  /\ match decoded.2 with
     | Some err =>
         run.1 = Goexit /\ failed run.2 = true
         /\ last (output run.2) = Some (Sprintln [err])
     | None => run.1 = Returns tt
     end.
Proof.
  intros Hp Hcur Hdec Hreach decoded run. subst run.
  rewrite fn_assert_after_reading. unfold assertions.
  set (s1 := Build_State _ _ _).
  destruct (status_returns tc resp s1) as (s2 & Hs & _ & Hh2); [tauto|].
  destruct (headers_returns env tc resp s2) as (s3 & Hh & _ & Hh3); [tauto|].
  destruct (raw_returns tc resp s3) as (s4 & Hr & _ & Hh4); [tauto|].
  destruct (structured_returns env tc resp s4 Hdec) as (s5 & Hj & _ & Hh5); [tauto|].
  erewrite bind_returns by exact Hs. erewrite bind_returns by exact Hh.
  erewrite bind_returns by exact Hr. erewrite bind_returns by exact Hj.
  assert (Hheap : heap s5 = heap s) by (rewrite Hh5, Hh4, Hh3, Hh2; reflexivity).
  rewrite (capture_eval env tc resp p cur s5 Hp) by (rewrite Hheap; exact Hcur).
  cbn zeta. fold decoded. destruct (decoded.2) as [err|]; cbn.
  - rewrite Hheap. split; [reflexivity|]. repeat split. apply last_snoc.
  - rewrite Hheap. split; reflexivity.
Qed.

Lemma capture_when_reached_witness :
  let tc := set_grabOutput (set_expectCode sample_tc 200) (Some 0%nat) in
  let run := fn_assert sample_env tc (answer 500 "true" None)
               (fresh_state {[ 0%nat := VBool false ]}) in
  heap run.2 = {[ 0%nat := VBool true ]} /\ run.1 = Returns tt.
Proof.
  intros tc run.
  destruct (capture_when_reached sample_env tc (answer 500 "true" None)
              (fresh_state {[ 0%nat := VBool false ]}) 0%nat (VBool false))
    as [Hheap Hout].
  - reflexivity.
  - reflexivity.
  - intros want Hwant. discriminate Hwant.
  - left. reflexivity.
  - subst run. split; [rewrite Hheap; reflexivity | exact Hout].
Defined.

(** C5 (as stated) fails: under fail-fast a failing status assertion
    ends the test function, and the capture target keeps its value
    although the body would decode into it. *)
Lemma capture_skipped_after_fail_fast :
  let tc := set_fatalFailure
              (set_grabOutput (set_expectCode sample_tc 200) (Some 0%nat)) true in
  let run := fn_assert sample_env tc (answer 500 "true" None)
               (fresh_state {[ 0%nat := VBool false ]}) in
  grabOutput tc = Some 0%nat
  /\ json_Unmarshal sample_env "true" (VBool false) = (VBool true, None)
  /\ run.1 = Goexit
  /\ heap run.2 !! 0%nat = Some (VBool false).
Proof. repeat split; reflexivity. Qed.

(** ** The order of the assertions *)

(** With a request built and a response received, the test function is
    what it does with the response. *)
Lemma fn_with_response (env : Env) (tc : testCase) (req : Request)
  (resp : Response) :
  fn_request env tc = inl req ->
  Client_Do (server tc) (fn_client tc) req = inl resp ->
  fn env tc = fn_assert env tc resp.
Proof. intros Hreq Hdo. unfold fn. cbn zeta. now rewrite Hreq, Hdo. Qed.

Lemma acts_ret : acts (mret tt) (Returns tt) [].
Proof. intros s. cbn. now rewrite app_nil_r. Qed.

Lemma acts_report (tc : testCase) (msg : string) :
  acts (report tc msg) (if fatalFailure tc then Goexit else Returns tt) [msg].
Proof. intros s. rewrite report_eval. repeat split. Qed.

Lemma acts_bind (m k : Run unit) (o1 o2 : Outcome unit) (l1 l2 : list string) :
  acts m o1 l1 -> acts k o2 l2 -> acts (m ;; k) (and_then o1 o2) (cut o1 l1 l2).
Proof.
  intros Hm Hk s. destruct (Hm s) as (Ho & Hl & Hh).
  unfold mbind, Run_bind, cut, and_then. destruct (m s) as [o s1]. cbn in *. subst o1.
  destruct o as [[]| |v]; cbn.
  - destruct (Hk s1) as (Ho2 & Hl2 & Hh2).
    rewrite Ho2, Hl2, Hl, Hh2, Hh, <- app_assoc. repeat split.
  - rewrite app_nil_r. repeat split; assumption.
  - rewrite app_nil_r. repeat split; assumption.
Qed.

Lemma shaped_bind (m k : Run unit) (h : gmap nat GoValue) (o1 o2 : Outcome unit)
  (l1 l2 : list string) :
  acts m o1 l1 -> shaped k h o2 l2 ->
  shaped (m ;; k) h (and_then o1 o2) (cut o1 l1 l2).
Proof.
  intros Hm Hk s Hs. destruct (Hm s) as (Ho & Hl & Hh).
  unfold mbind, Run_bind, cut, and_then. destruct (m s) as [o s1]. cbn in *. subst o1.
  destruct o as [[]| |v]; cbn.
  - destruct (Hk s1) as (Ho2 & Hl2); [congruence|].
    rewrite Ho2, Hl2, Hl, <- app_assoc. split; reflexivity.
  - rewrite app_nil_r. split; [reflexivity | assumption].
  - rewrite app_nil_r. split; [reflexivity | assumption].
Qed.

Lemma acts_for_range {A} (l : list A) (body : A -> Run unit) :
  (forall x, exists o e, acts (body x) o e) ->
  exists o e, acts (for_range l body) o e.
Proof.
  intros Hbody. induction l as [|x l (o2 & e2 & IH)].
  - exists (Returns tt), []. apply acts_ret.
  - destruct (Hbody x) as (o1 & e1 & H1).
    exists (and_then o1 o2), (cut o1 e1 e2). now apply acts_bind.
Qed.

Section Order.
Context (env : Env) (tc : testCase) (resp : Response).

Lemma acts_assert_status :
  exists o l, acts (assert_status tc resp) o l.
Proof.
  unfold assert_status. repeat case_decide; eauto using acts_ret, acts_report.
Qed.

Lemma acts_assert_headers :
  exists o l, acts (assert_headers env tc resp) o l.
Proof.
  apply acts_for_range. intros kv. unfold assert_header.
  case_decide; [eauto using acts_ret|].
  eexists _, _. apply acts_bind; [apply acts_report|].
  intros s. cbn. repeat split.
Qed.

Lemma acts_assert_raw :
  exists o l, acts (assert_raw tc resp) o l.
Proof.
  unfold assert_raw. destruct (expectRaw tc); [|eauto using acts_ret].
  case_decide; eauto using acts_ret, acts_report.
Qed.

Lemma acts_assert_structured :
  exists o l, acts (assert_structured env tc resp) o l.
Proof.
  unfold assert_structured. destruct (expectJSON tc); [|eauto using acts_ret].
  destruct (json_Unmarshal _ _ _) as [got [e|]].
  { exists Goexit, [Sprintln [e]]. intros s. repeat split. }
  destruct (cmp_Diff _ _ _ _) as [d|v].
  - case_decide; eauto using acts_ret, acts_report.
  - exists (Panic v), []. intros s. cbn. now rewrite app_nil_r.
Qed.

Lemma shaped_capture (h : gmap nat GoValue) :
  exists o l, shaped (capture env tc resp) h o l.
Proof.
  unfold capture. destruct (grabOutput tc) as [p|].
  - destruct (h !! p) as [cur|] eqn:Hcur.
    + destruct (json_Unmarshal env (body_data (resp_Body resp)) cur).2
        as [e|] eqn:He.
      * exists Goexit, [Sprintln [e]]. intros s <-. rewrite Hcur. cbn zeta.
        rewrite He. split; reflexivity.
      * exists (Returns tt), []. intros s <-. rewrite Hcur. cbn zeta.
        rewrite He. cbn. now rewrite app_nil_r.
    + exists Goexit, [Sprintln [InvalidUnmarshalError env]].
      intros s <-. rewrite Hcur. split; reflexivity.
  - exists (Returns tt), []. intros s _. cbn. now rewrite app_nil_r.
Qed.

End Order.

Lemma cut_prefix (o : Outcome unit) (l rest rest' : list string) :
  rest `prefix_of` rest' -> cut o l rest `prefix_of` l ++ rest'.
Proof.
  intros H. unfold cut. apply prefix_app. destruct o; [exact H | |];
    apply prefix_nil.
Qed.

Lemma cut_returns (o1 o2 : Outcome unit) (l rest : list string) :
  and_then o1 o2 = Returns tt -> cut o1 l rest = l ++ rest /\ o2 = Returns tt.
Proof.
  unfold and_then, cut. destruct o1 as [[]| |v]; intros H; try discriminate H.
  now split.
Qed.

(** C4.  The executor is the sequence: read the body and log it, then
    the status, the header, the raw-body and the structured assertions
    and the capture.  The log of a run is that of the state it started
    in, then the read error if any, then the body, then the entries of
    the five steps in this order, up to the step that ends the test
    function if one does.  A step whose field is unset does nothing. *)
Theorem executor_order (env : Env) (tc : testCase) (req : Request)
  (resp : Response) (s : State) :
  fn_request env tc = inl req ->
  Client_Do (server tc) (fn_client tc) req = inl resp ->
  (forall st, fn env tc st =
              (read_and_log resp ;; assert_status tc resp ;;
               assert_headers env tc resp ;; assert_raw tc resp ;;
               assert_structured env tc resp ;; capture env tc resp) st)
  /\ (exists l1 l2 l3 l4 l5 rest,
        (forall st, output (assert_status tc resp st).2 = output st ++ l1)
        /\ (forall st, output (assert_headers env tc resp st).2 = output st ++ l2)
        /\ (forall st, output (assert_raw tc resp st).2 = output st ++ l3)
        /\ (forall st, output (assert_structured env tc resp st).2 = output st ++ l4)
        /\ (forall st, heap st = heap s ->
                       output (capture env tc resp st).2 = output st ++ l5)
        /\ output (fn env tc s).2
           = output s ++ read_error_entry resp ++ [output_entry resp] ++ rest
        /\ rest `prefix_of` l1 ++ l2 ++ l3 ++ l4 ++ l5
        /\ ((fn env tc s).1 = Returns tt ->
            rest = l1 ++ l2 ++ l3 ++ l4 ++ l5))
  /\ (expectCode tc = 0 -> forall st, assert_status tc resp st = (Returns tt, st))
  /\ (expectHeaders tc = ∅ ->
      forall st, assert_headers env tc resp st = (Returns tt, st))
  /\ (expectRaw tc = None -> forall st, assert_raw tc resp st = (Returns tt, st))
  /\ (expectJSON tc = None ->
      forall st, assert_structured env tc resp st = (Returns tt, st))
  /\ (grabOutput tc = None -> forall st, capture env tc resp st = (Returns tt, st)).
Proof.
  intros Hreq Hdo.
  rewrite (fn_with_response env tc req resp Hreq Hdo).
  split; [intros st; apply fn_assert_sequence|]. split.
  - destruct (acts_assert_status tc resp) as (o1 & l1 & H1).
    destruct (acts_assert_headers env tc resp) as (o2 & l2 & H2).
    destruct (acts_assert_raw tc resp) as (o3 & l3 & H3).
    destruct (acts_assert_structured env tc resp) as (o4 & l4 & H4).
    destruct (shaped_capture env tc resp (heap s)) as (o5 & l5 & H5).
    exists l1, l2, l3, l4, l5, (cut o1 l1 (cut o2 l2 (cut o3 l3 (cut o4 l4 l5)))).
    split; [intros st; apply H1|]. split; [intros st; apply H2|].
    split; [intros st; apply H3|]. split; [intros st; apply H4|].
    split; [intros st Hst; now apply H5|].
    pose proof (shaped_bind _ _ _ _ _ _ _ H1
                  (shaped_bind _ _ _ _ _ _ _ H2
                     (shaped_bind _ _ _ _ _ _ _ H3
                        (shaped_bind _ _ _ _ _ _ _ H4 H5)))) as Hall.
    rewrite fn_assert_after_reading. unfold assertions.
    edestruct Hall as [Ho Hl]; [|rewrite Hl, Ho]; [reflexivity|].
    cbn [output]. rewrite <- !app_assoc. split; [reflexivity|]. split.
    + repeat apply cut_prefix. reflexivity.
    + intros Hret.
      apply cut_returns with (l := l1) (rest := cut o2 l2 (cut o3 l3 (cut o4 l4 l5)))
        in Hret as [-> Hret].
      apply cut_returns with (l := l2) (rest := cut o3 l3 (cut o4 l4 l5))
        in Hret as [-> Hret].
      apply cut_returns with (l := l3) (rest := cut o4 l4 l5) in Hret as [-> Hret].
      apply cut_returns with (l := l4) (rest := l5) in Hret as [-> Hret].
      reflexivity.
  - split; [|split; [|split; [|split]]].
    + intros H st. apply assert_status_ok. now left.
    + intros H st. apply assert_headers_ok. intros k v Hkv.
      rewrite H, lookup_empty in Hkv. discriminate Hkv.
    + intros H st. apply assert_raw_ok. intros want Hw. congruence.
    + intros H st. now apply assert_structured_unset.
    + intros H st. now apply capture_unset.
Qed.

Lemma executor_order_witness :
  let tc := set_expectRaw sample_tc (Some "hello") in
  output (fn sample_env tc (fresh_state ∅)).2
  = [output_entry (answer 200 "" None); msg_raw tc "hello" ""]
  /\ forall st, assert_status tc (answer 200 "" None) st = (Returns tt, st).
Proof.
  intros tc.
  destruct (executor_order sample_env tc
              {| req_Method := "POST"; req_URL := "http://127.0.0.1:8080/greet";
                 req_Header := ∅; req_Body := None |}
              (answer 200 "" None) (fresh_state ∅) eq_refl eq_refl)
    as (_ & _ & Hcode & _).
  split; [reflexivity | exact (Hcode eq_refl)].
Defined.

(** ** The examples of the repository *)

Example canon_1 : http.CanonicalHeaderKey "content-type" = "Content-Type".
Proof. reflexivity. Qed.

Example canon_2 : http.CanonicalHeaderKey "X-reQuest-id" = "X-Request-Id".
Proof. reflexivity. Qed.

Example canon_3 : http.CanonicalHeaderKey "content type" = "content type".
Proof. reflexivity. Qed.

Example Encode_two_keys :
  url.Values_Encode (<["b" := ["x y"; "&"]]> {[ "a" := ["1"] ]}) = "a=1&b=x+y&b=%26".
Proof. vm_compute. reflexivity. Qed.

(** [TestPlainText]: the index says hello world, and the test passes. *)
Example TestPlainText :
  let server :=
    serving {| StatusCode := 200;
               resp_Header := {[ "Content-Type" := ["text/plain"] ]};
               resp_Body := {| body_data := "hello world"; body_err := None |} |} in
  exists run,
    Test sample_env (New server) "GET" "/"
      [ ExpectStatusCode 200;
        ExpectHeader "Content-Type" "text/plain";
        ExpectRawResponse (Some "hello world") ] = Done run
    /\ run (fresh_state ∅)
       = (Returns tt,
          {| output := ["output:" +:+ nl +:+ " hello world" +:+ nl];
             failed := false; heap := ∅ |}).
Proof. eexists. split; reflexivity. Qed.

(** [TestPost], wrong method: the status that is expected arrives. *)
Example TestPost_wrong_method :
  exists run,
    Test sample_env (New (serving (answer 405 "" None))) "GET" "/greet"
      [ ExpectStatusCode 405 ] = Done run
    /\ (run (fresh_state ∅)).1 = Returns tt
    /\ failed (run (fresh_state ∅)).2 = false.
Proof. eexists. repeat split; reflexivity. Qed.

(** The happy path of [TestPost] against a server that refuses the
    method: the failure of the README, want 200, got 405. *)
Example TestPost_unexpected_code :
  exists run,
    Test sample_env (New (serving (answer 405 "" None))) "POST" "/greet"
      [ WithFormInput {[ "name" := ["greg"] ]}; ExpectStatusCode 200 ] = Done run
    /\ output (run (fresh_state ∅)).2
       = [ "output:" +:+ nl +:+ " " +:+ nl;
           "[POST /greet] unexpected response code: want 200, got 405" ]
    /\ failed (run (fresh_state ∅)).2 = true.
Proof. eexists. repeat split; reflexivity. Qed.

(** * Further properties *)

(** ** What a step does to a state *)

Lemma effect_ret (h : gmap nat GoValue) : effect_on h (mret tt) (Returns tt) [] false h.
Proof.
  intros [o f hp] Hh. cbn in *. subst. now rewrite app_nil_r, orb_false_r.
Qed.

Lemma effect_bind (m k : Run unit) (h h1 h2 : gmap nat GoValue)
  (o1 o2 : Outcome unit) (l1 l2 : list string) (f1 f2 : bool) :
  effect_on h m o1 l1 f1 h1 -> effect_on h1 k o2 l2 f2 h2 ->
  effect_on h (m ;; k) (and_then o1 o2) (cut o1 l1 l2)
    (f1 || (returns o1 && f2)) (if returns o1 then h2 else h1).
Proof.
  intros Hm Hk s Hs. unfold mbind, Run_bind. rewrite (Hm s Hs).
  unfold cut, and_then. destruct o1 as [[]| |v]; cbn.
  - rewrite (Hk {| output := output s ++ l1; failed := failed s || f1; heap := h1 |} eq_refl).
    cbn. now rewrite <- app_assoc, orb_assoc.
  - now rewrite app_nil_r, orb_false_r.
  - now rewrite app_nil_r, orb_false_r.
Qed.

Lemma effect_ext (m m' : Run unit) (h h' : gmap nat GoValue) (o : Outcome unit)
  (l : list string) (f : bool) :
  (forall s, m s = m' s) -> effect_on h m' o l f h' -> effect_on h m o l f h'.
Proof. intros Heq H s Hs. rewrite Heq. now apply H. Qed.

Lemma effect_failing (m : Run unit) (h : gmap nat GoValue) (o : Outcome unit)
  (l : list string) :
  (forall s, m s = (o, failing (logged s l))) -> effect_on h m o l true h.
Proof.
  intros H s Hs. rewrite H. unfold failing, logged. cbn.
  now rewrite orb_true_r, Hs.
Qed.

Lemma effect_nothing (m : Run unit) (h : gmap nat GoValue) :
  (forall s, m s = (Returns tt, s)) -> effect_on h m (Returns tt) [] false h.
Proof.
  intros H [o f hp] Hs. rewrite H. cbn in *. subst.
  now rewrite app_nil_r, orb_false_r.
Qed.

Lemma header_entries_ok (env : Env) (tc : testCase) (resp : Response)
  (l : list (string * string)) :
  Forall (header_ok resp) l -> header_entries env tc resp l = [].
Proof.
  induction 1 as [|kv l Hkv _ IH]; [reflexivity|].
  unfold header_entries in *. cbn [flat_map]. rewrite IH.
  now rewrite decide_True by exact Hkv.
Qed.

Lemma header_entries_Permutation (env : Env) (tc : testCase) (resp : Response)
  (l l' : list (string * string)) :
  l ≡ₚ l' -> header_entries env tc resp l ≡ₚ header_entries env tc resp l'.
Proof.
  intros H. unfold header_entries. induction H as [|x l l' _ IH|x y l|l1 l2 l3 _ IH1 _ IH2].
  - reflexivity.
  - cbn [flat_map]. now rewrite IH.
  - cbn [flat_map]. rewrite !app_assoc. f_equiv. apply Permutation_app_comm.
  - now rewrite IH1.
Qed.

Lemma headers_list_abort_at (env : Env) (tc : testCase) (resp : Response)
  (l : list (string * string)) :
  fatalFailure tc = true -> ~ Forall (header_ok resp) l ->
  exists kv, kv ∈ l /\ ~ header_ok resp kv /\
    forall s, for_range l (assert_header env tc resp) s =
      (Goexit, failing (logged s [msg_header tc kv.1 kv.2
                                    (http.Header_Get (resp_Header resp) kv.1)])).
Proof.
  intros Hff. induction l as [|kv l IH]; intros Hbad.
  - exfalso. apply Hbad. constructor.
  - destruct (decide (header_ok resp kv)) as [Hok|Hkv].
    + destruct IH as (kv' & Hin & Hkv' & Hrun).
      { intros Hl. apply Hbad. now constructor. }
      exists kv'. split; [now right|]. split; [exact Hkv'|].
      intros s. simpl.
      erewrite bind_returns by (apply assert_header_ok; exact Hok).
      apply Hrun.
    + exists kv. split; [now left|]. split; [exact Hkv|].
      intros s. simpl. erewrite bind_goexit; [reflexivity|].
      rewrite assert_header_bad, Hff by exact Hkv. reflexivity.
Qed.

Section Effects.
Context (env : Env) (tc : testCase) (resp : Response) (h : gmap nat GoValue).

Lemma effect_read_and_log :
  effect_on h (read_and_log resp) (Returns tt)
    (read_error_entry resp ++ [output_entry resp])
    (match body_err (resp_Body resp) with Some _ => true | None => false end) h.
Proof.
  intros s Hs. unfold read_and_log. subst h.
  destruct (body_err (resp_Body resp)); now rewrite ?orb_true_r, ?orb_false_r.
Qed.

Lemma effect_assert_status :
  exists o l f, effect_on h (assert_status tc resp) o l f h
                /\ step_reports tc (code_ok tc resp) o l f.
Proof.
  destruct (decide (code_ok tc resp)) as [Hok|Hbad].
  - exists (Returns tt), [], false. split.
    + apply effect_nothing. intros s. now apply assert_status_ok.
    + split; [now intros _ | now intros H].
  - eexists _, _, true. split.
    + apply effect_failing. intros s. now apply assert_status_bad.
    + split; [now intros H|]. intros _. repeat split. discriminate.
Qed.

Lemma effect_assert_headers :
  exists o l f, effect_on h (assert_headers env tc resp) o l f h
                /\ step_reports tc (headers_ok tc resp) o l f
                /\ (fatalFailure tc = false ->
                    l = header_entries env tc resp (range env (expectHeaders tc))).
Proof.
  destruct (decide (headers_ok tc resp)) as [Hok|Hbad].
  - exists (Returns tt), [], false. split; [|split].
    + apply effect_nothing. intros s. now apply assert_headers_ok.
    + split; [now intros _ | now intros H].
    + intros _. symmetry. apply header_entries_ok.
      now apply range_headers_ok.
  - assert (Hl : ~ Forall (header_ok resp) (range env (expectHeaders tc)))
      by now rewrite range_headers_ok.
    destruct (fatalFailure tc) eqn:Hff.
    + destruct (headers_list_abort_at env tc resp _ Hff Hl) as (kv & _ & _ & Hrun).
      eexists Goexit, _, true. split; [|split].
      * apply effect_failing. exact Hrun.
      * split; [now intros H|]. intros _. rewrite Hff. repeat split. discriminate.
      * discriminate.
    + exists (Returns tt),
        (header_entries env tc resp (range env (expectHeaders tc))), true.
      split; [|split].
      * intros s Hs. rewrite assert_headers_continue by exact Hff.
        rewrite decide_False by exact Hbad. now rewrite orb_true_r, Hs.
      * split; [now intros H|]. intros _. rewrite Hff.
        split; [reflexivity|]. split; [|split; [reflexivity | discriminate]].
        apply not_Forall_Exists in Hl; [|apply _].
        apply Exists_exists in Hl as (kv & Hin & Hkv).
        intros Hnil.
        pose proof (header_entries_elem env tc resp _ kv Hin Hkv) as Hel.
        rewrite Hnil in Hel. now apply elem_of_nil in Hel.
      * reflexivity.
Qed.

Lemma effect_assert_raw :
  exists o l f, effect_on h (assert_raw tc resp) o l f h
                /\ step_reports tc (raw_ok tc resp) o l f.
Proof.
  destruct (expectRaw tc) as [want|] eqn:Hraw.
  - destruct (decide (want = body_data (resp_Body resp))) as [Heq|Hne].
    + exists (Returns tt), [], false. split.
      * apply effect_nothing. intros s. apply assert_raw_ok.
        intros w Hw. congruence.
      * split; [now intros _|]. intros H. contradiction H. intros w Hw. congruence.
    + eexists _, _, true. split.
      * apply effect_failing. intros s. now apply (assert_raw_bad tc resp want).
      * split; [intros H; contradiction Hne; now apply H|].
        intros _. repeat split. discriminate.
  - exists (Returns tt), [], false. split.
    + apply effect_nothing. intros s. apply assert_raw_ok.
      intros w Hw. congruence.
    + split; [now intros _|]. intros H. contradiction H. intros w Hw. congruence.
Qed.

(** The structured comparison: a step that reports when the body
    decodes; in every case, under fail-fast or not, entries are followed
    by nothing when they come with a fatal error. *)
Lemma effect_assert_structured :
  exists o l f, effect_on h (assert_structured env tc resp) o l f h
    /\ (structured_decodes env tc resp ->
        step_reports tc (structured_ok env tc resp) o l f)
    /\ (length l <= 1)%nat
    /\ (fatalFailure tc = true -> l <> [] -> o = Goexit)
    /\ (o = Returns tt -> structured_decodes env tc resp).
Proof.
  unfold structured_decodes, structured_ok.
  destruct (expectJSON tc) as [want|] eqn:Hj.
  - destruct (json_Unmarshal env (body_data (resp_Body resp))
                (reflect.Zero (reflect.TypeOf want))) as [got err] eqn:Hdec.
    destruct err as [e|].
    { exists Goexit, [Sprintln [e]], true. split; [|split; [|split; [|split]]].
      - apply effect_failing. intros s. unfold assert_structured.
        now rewrite Hj, Hdec.
      - intros H. destruct (H want eq_refl) as (g & d & Hg & _).
        rewrite Hdec in Hg. discriminate Hg.
      - reflexivity.
      - reflexivity.
      - discriminate. }
    destruct (cmp_Diff env want got (outputCmpOpt tc)) as [d|v] eqn:Hd.
    + destruct (decide (d = "")) as [->|Hne].
      * exists (Returns tt), [], false. split; [|split; [|split; [|split]]].
        -- apply effect_nothing. intros s. apply assert_structured_ok.
           intros w Hw. rewrite Hj in Hw. injection Hw as <-. now exists got.
        -- intros _. split; [now intros _|]. intros H. contradiction H.
           intros w [= <-]. now exists got.
        -- cbn. lia.
        -- now intros _ H.
        -- intros _ w [= <-]. now exists got, "".
      * eexists _, [msg_diff tc d], true. split; [|split; [|split; [|split]]].
        -- apply effect_failing. intros s.
           now apply (assert_structured_diff env tc resp want got d).
        -- intros _. split.
           ++ intros H. destruct (H want eq_refl) as (g & Hg & Hd').
              rewrite Hg in Hdec. injection Hdec as ->. congruence.
           ++ intros _. repeat split. discriminate.
        -- reflexivity.
        -- intros -> _. reflexivity.
        -- intros _ w [= <-]. now exists got, d.
    + exists (Panic v), [], false. split; [|split; [|split; [|split]]].
      * intros s Hs. unfold assert_structured. rewrite Hj, Hdec, Hd.
        unfold panic. destruct s; cbn in *. subst.
        now rewrite app_nil_r, orb_false_r.
      * intros H. destruct (H want eq_refl) as (g & d & Hg & Hd').
        rewrite Hg in Hdec. injection Hdec as ->. congruence.
      * cbn. lia.
      * now intros _ H.
      * discriminate.
  - exists (Returns tt), [], false. split; [|split; [|split; [|split]]].
    + apply effect_nothing. intros s. now apply assert_structured_unset.
    + intros _. split; [now intros _|]. intros H. contradiction H. discriminate.
    + cbn. lia.
    + now intros _ H.
    + discriminate.
Qed.

(** The capture: it writes its target and nothing else; an entry comes
    with a fatal error. *)
Lemma effect_capture :
  exists o l f h', effect_on h (capture env tc resp) o l f h'
    /\ (forall q, grabOutput tc <> Some q -> h' !! q = h !! q)
    /\ (length l <= 1)%nat
    /\ (l <> [] -> o = Goexit)
    /\ (capture_ok env tc resp h -> o = Returns tt /\ l = [] /\ f = false)
    /\ (grabOutput tc = None -> h' = h).
Proof.
  unfold capture_ok. destruct (grabOutput tc) as [p|] eqn:Hp.
  - destruct (h !! p) as [cur|] eqn:Hcur.
    + destruct (json_Unmarshal env (body_data (resp_Body resp)) cur) as [v err] eqn:Hdec.
      destruct err as [e|].
      * exists Goexit, [Sprintln [e]], true, (<[p := v]> h).
        split; [|split; [|split; [|split; [|split]]]].
        -- intros s Hs. subst h.
           rewrite (capture_eval env tc resp p cur s Hp Hcur), Hdec. cbn.
           now rewrite orb_true_r.
        -- intros q Hq. apply lookup_insert_ne. congruence.
        -- reflexivity.
        -- reflexivity.
        -- intros H. destruct (H p eq_refl) as (c & Hc & He).
           rewrite Hcur in Hc. injection Hc as <-. rewrite Hdec in He. discriminate He.
        -- discriminate.
      * exists (Returns tt), [], false, (<[p := v]> h).
        split; [|split; [|split; [|split; [|split]]]].
        -- intros s Hs. subst h.
           rewrite (capture_eval env tc resp p cur s Hp Hcur), Hdec. cbn.
           now rewrite app_nil_r, orb_false_r.
        -- intros q Hq. apply lookup_insert_ne. congruence.
        -- cbn. lia.
        -- now intros H.
        -- now intros _.
        -- discriminate.
    + exists Goexit, [Sprintln [InvalidUnmarshalError env]], true, h.
      split; [|split; [|split; [|split; [|split]]]].
      * intros s Hs. subst h. unfold capture. rewrite Hp, Hcur. cbn.
        now rewrite orb_true_r.
      * reflexivity.
      * reflexivity.
      * reflexivity.
      * intros H. destruct (H p eq_refl) as (c & Hc & _).
        rewrite Hcur in Hc. discriminate Hc.
      * discriminate.
  - exists (Returns tt), [], false, h.
    split; [|split; [|split; [|split; [|split]]]].
    + apply effect_nothing. intros s. now apply capture_unset.
    + reflexivity.
    + cbn. lia.
    + now intros H.
    + now intros _.
    + reflexivity.
Qed.

End Effects.

Lemma effect_unique (m : Run unit) (h h1 h2 : gmap nat GoValue)
  (o1 o2 : Outcome unit) (l1 l2 : list string) (f1 f2 : bool) :
  effect_on h m o1 l1 f1 h1 -> effect_on h m o2 l2 f2 h2 ->
  o1 = o2 /\ l1 = l2 /\ f1 = f2 /\ h1 = h2.
Proof.
  intros H1 H2.
  specialize (H1 {| output := []; failed := false; heap := h |} eq_refl).
  specialize (H2 {| output := []; failed := false; heap := h |} eq_refl).
  rewrite H1 in H2. cbn in H2. now injection H2.
Qed.


Lemma raw_ok_or (tc : testCase) (resp : Response) :
  raw_ok tc resp \/ ~ raw_ok tc resp.
Proof.
  unfold raw_ok. destruct (expectRaw tc) as [want|].
  - destruct (decide (want = body_data (resp_Body resp))) as [->|Hne].
    + left. now intros w [= <-].
    + right. intros H. now apply Hne, H.
  - left. discriminate.
Qed.

Lemma structured_ok_or (env : Env) (tc : testCase) (resp : Response) :
  structured_decodes env tc resp ->
  structured_ok env tc resp \/ ~ structured_ok env tc resp.
Proof.
  unfold structured_decodes, structured_ok. intros Hdec.
  destruct (expectJSON tc) as [want|]; [|left; discriminate].
  destruct (Hdec want eq_refl) as (got & d & Hgot & Hd).
  destruct (decide (d = "")) as [->|Hne].
  - left. intros w [= <-]. now exists got.
  - right. intros H. destruct (H want eq_refl) as (g & Hg & Hd').
    rewrite Hg in Hgot. injection Hgot as ->. congruence.
Qed.

(** A step under fail-fast: at most one entry, and an entry ends the
    test function. *)
Lemma step_reports_fail_fast (tc : testCase) (ok : Prop) (o : Outcome unit)
  (l : list string) (f : bool) :
  ok \/ ~ ok -> fatalFailure tc = true -> step_reports tc ok o l f ->
  (length l <= 1)%nat /\ (l <> [] -> o = Goexit).
Proof.
  intros [Hok|Hbad] Hff [H1 H2].
  - destruct (H1 Hok) as (-> & -> & _). split; [cbn; lia | now intros H].
  - destruct (H2 Hbad) as (-> & _ & _ & Hlen). rewrite Hff.
    split; [rewrite (Hlen Hff); lia | reflexivity].
Qed.

Lemma cut_at_most_one (o1 o2 : Outcome unit) (l1 l2 : list string) :
  (length l1 <= 1)%nat /\ (l1 <> [] -> o1 = Goexit) ->
  (length l2 <= 1)%nat /\ (l2 <> [] -> o2 = Goexit) ->
  (length (cut o1 l1 l2) <= 1)%nat
  /\ (cut o1 l1 l2 <> [] -> and_then o1 o2 = Goexit).
Proof.
  intros [Hlen1 Hex1] [Hlen2 Hex2]. unfold cut, and_then.
  destruct l1 as [|x l1].
  - destruct o1 as [[]| |v]; cbn; [now split | |]; split; (lia || now intros H).
  - rewrite (Hex1 ltac:(discriminate)). rewrite app_nil_r.
    split; [exact Hlen1 | reflexivity].
Qed.

(** The whole of what the test function does with a response, as the
    composition of what its steps do. *)
Lemma fn_assert_effect (env : Env) (tc : testCase) (resp : Response)
  (h : gmap nat GoValue) :
  exists o1 l1 f1 o2 l2 f2 o3 l3 f3 o4 l4 f4 o5 l5 f5 h5,
    effect_on h (assert_status tc resp) o1 l1 f1 h
    /\ effect_on h (assert_headers env tc resp) o2 l2 f2 h
    /\ effect_on h (assert_raw tc resp) o3 l3 f3 h
    /\ effect_on h (assert_structured env tc resp) o4 l4 f4 h
    /\ effect_on h (capture env tc resp) o5 l5 f5 h5
    /\ effect_on h (fn_assert env tc resp)
         (and_then o1 (and_then o2 (and_then o3 (and_then o4 o5))))
         ((read_error_entry resp ++ [output_entry resp])
          ++ cut o1 l1 (cut o2 l2 (cut o3 l3 (cut o4 l4 l5))))
         (match body_err (resp_Body resp) with Some _ => true | None => false end
          || (f1 || returns o1 && (f2 || returns o2 && (f3 || returns o3
                                   && (f4 || returns o4 && f5)))))
         (if returns o1 then if returns o2 then if returns o3 then
            if returns o4 then h5 else h else h else h else h).
Proof.
  destruct (effect_assert_status tc resp h) as (o1 & l1 & f1 & E1 & _).
  destruct (effect_assert_headers env tc resp h) as (o2 & l2 & f2 & E2 & _).
  destruct (effect_assert_raw tc resp h) as (o3 & l3 & f3 & E3 & _).
  destruct (effect_assert_structured env tc resp h) as (o4 & l4 & f4 & E4 & _).
  destruct (effect_capture env tc resp h) as (o5 & l5 & f5 & h5 & E5 & _).
  exists o1, l1, f1, o2, l2, f2, o3, l3, f3, o4, l4, f4, o5, l5, f5, h5.
  repeat (split; [assumption|]).
  eapply effect_ext; [intros s; apply fn_assert_sequence|].
  pose proof (effect_bind _ _ _ _ _ _ _ _ _ _ _ E4 E5) as E45.
  assert (E345 := effect_bind _ _ _ _ _ _ _ _ _ _ _ E3 E45).
  assert (E2345 := effect_bind _ _ _ _ _ _ _ _ _ _ _ E2 E345).
  assert (E12345 := effect_bind _ _ _ _ _ _ _ _ _ _ _ E1 E2345).
  assert (Eall := effect_bind _ _ _ _ _ _ _ _ _ _ _ (effect_read_and_log resp h) E12345).
  unfold assertions. intros s Hs. rewrite (Eall s Hs). reflexivity.
Qed.

Ltac fn_assert_effects env0 tc0 resp0 h0 :=
  destruct (fn_assert_effect env0 tc0 resp0 h0)
    as (o1 & l1 & f1 & o2 & l2 & f2 & o3 & l3 & f3 & o4 & l4 & f4
        & o5 & l5 & f5 & h5 & E1 & E2 & E3 & E4 & E5 & Eall);
  destruct (effect_assert_status tc0 resp0 h0) as (?o & ?l & ?f & E1' & R1);
  destruct (effect_unique _ _ _ _ _ _ _ _ _ _ E1' E1) as (-> & -> & -> & _);
  clear E1';
  destruct (effect_assert_headers env0 tc0 resp0 h0)
    as (?o & ?l & ?f & E2' & R2 & L2);
  destruct (effect_unique _ _ _ _ _ _ _ _ _ _ E2' E2) as (-> & -> & -> & _);
  clear E2';
  destruct (effect_assert_raw tc0 resp0 h0) as (?o & ?l & ?f & E3' & R3);
  destruct (effect_unique _ _ _ _ _ _ _ _ _ _ E3' E3) as (-> & -> & -> & _);
  clear E3';
  destruct (effect_assert_structured env0 tc0 resp0 h0)
    as (?o & ?l & ?f & E4' & R4 & Len4 & X4 & D4);
  destruct (effect_unique _ _ _ _ _ _ _ _ _ _ E4' E4) as (-> & -> & -> & _);
  clear E4';
  destruct (effect_capture env0 tc0 resp0 h0)
    as (?o & ?l & ?f & ?hp & E5' & Fr5 & Len5 & X5 & C5 & N5);
  destruct (effect_unique _ _ _ _ _ _ _ _ _ _ E5' E5) as (-> & -> & -> & ->);
  clear E5'.

Lemma decided (P : Prop) `{Decision P} : P \/ ~ P.
Proof. destruct (decide P); [now left | now right]. Qed.

(** ** The test function as a whole *)


(** X2.  Under fail-fast, after the body the log gains at most one
    entry, and an entry means that the test function was left at once. *)
Theorem fail_fast_logs_one_failure (env : Env) (tc : testCase) (resp : Response)
  (s : State) :
  fatalFailure tc = true ->
  exists rest,
    output (fn_assert env tc resp s).2
    = output s ++ (read_error_entry resp ++ [output_entry resp]) ++ rest
    /\ (length rest <= 1)%nat
    /\ (rest <> [] -> (fn_assert env tc resp s).1 = Goexit).
Proof.
  intros Hff. fn_assert_effects env tc resp (heap s).
  pose proof (step_reports_fail_fast tc _ _ _ _ (decided (code_ok tc resp)) Hff R1) as Q1.
  pose proof (step_reports_fail_fast tc _ _ _ _ (decided (headers_ok tc resp)) Hff R2) as Q2.
  pose proof (step_reports_fail_fast tc _ _ _ _ (raw_ok_or tc resp) Hff R3) as Q3.
  pose proof (conj Len4 (X4 Hff)) as Q4. pose proof (conj Len5 X5) as Q5.
  pose proof (cut_at_most_one _ _ _ _ Q1
                (cut_at_most_one _ _ _ _ Q2
                   (cut_at_most_one _ _ _ _ Q3
                      (cut_at_most_one _ _ _ _ Q4 Q5)))) as [Hlen Hexit].
  eexists. rewrite (Eall s eq_refl). cbn [fst snd output].
  split; [reflexivity|]. split; [exact Hlen | exact Hexit].
Qed.

Lemma fail_fast_logs_one_failure_witness :
  let tc := set_fatalFailure (set_expectRaw (set_expectCode sample_tc 200) (Some "x")) true in
  exists rest,
    output (fn_assert sample_env tc (answer 500 "y" None) (fresh_state ∅)).2
    = [] ++ ([] ++ [output_entry (answer 500 "y" None)]) ++ rest
    /\ (length rest <= 1)%nat.
Proof.
  intros tc.
  destruct (fail_fast_logs_one_failure sample_env tc (answer 500 "y" None)
              (fresh_state ∅) eq_refl) as (rest & Hout & Hlen & _).
  exists rest. split; [exact Hout | exact Hlen].
Defined.

(** X3.  A run that starts unfailed, reads the body without error,
    decodes it where it has to and can write its capture: the test has
    not failed afterwards exactly when the status, the headers, the raw
    body and the structured comparison all meet their expectations; and
    then the test function returns, having logged the body and nothing
    else. *)
Theorem passes_iff_expectations_met (env : Env) (tc : testCase) (resp : Response)
  (s : State) :
  failed s = false -> body_err (resp_Body resp) = None ->
  structured_decodes env tc resp -> capture_ok env tc resp (heap s) ->
  let run := fn_assert env tc resp s in
  (failed run.2 = false <->
   code_ok tc resp /\ headers_ok tc resp /\ raw_ok tc resp
   /\ structured_ok env tc resp)
  /\ (failed run.2 = false ->
      run.1 = Returns tt /\ output run.2 = output s ++ [output_entry resp]).
Proof.
  intros Hs Herr Hdec Hcap run. subst run.
  fn_assert_effects env tc resp (heap s).
  rewrite (Eall s eq_refl). cbn [fst snd output failed].
  unfold read_error_entry. rewrite Herr, Hs. cbn [orb app].
  destruct (C5 Hcap) as (-> & -> & ->).
  specialize (R4 Hdec).
  destruct R1 as [R1 R1'], R2 as [R2 R2'], R3 as [R3 R3'], R4 as [R4 R4'].
  destruct (decide (code_ok tc resp)) as [H1|H1].
  2: { destruct (R1' H1) as (-> & _ & -> & _). cbn.
       split; [split; [discriminate | tauto] | discriminate]. }
  destruct (R1 H1) as (-> & -> & ->).
  destruct (decide (headers_ok tc resp)) as [H2|H2].
  2: { destruct (R2' H2) as (-> & _ & -> & _). cbn.
       split; [split; [discriminate | tauto] | discriminate]. }
  destruct (R2 H2) as (-> & -> & ->).
  destruct (raw_ok_or tc resp) as [H3|H3].
  2: { destruct (R3' H3) as (-> & _ & -> & _). cbn.
       split; [split; [discriminate | tauto] | discriminate]. }
  destruct (R3 H3) as (-> & -> & ->).
  destruct (structured_ok_or env tc resp Hdec) as [H4|H4].
  2: { destruct (R4' H4) as (-> & _ & -> & _). cbn.
       split; [split; [discriminate | tauto] | discriminate]. }
  destruct (R4 H4) as (-> & -> & ->). cbn.
  split; [split; [tauto | reflexivity] | now intros _].
Qed.

Lemma passes_iff_expectations_met_witness :
  let tc := set_expectRaw (set_expectCode sample_tc 200) (Some "hello") in
  let run := fn_assert sample_env tc (answer 200 "hello" None) (fresh_state ∅) in
  failed run.2 = false /\ run.1 = Returns tt
  /\ output run.2 = [output_entry (answer 200 "hello" None)].
Proof.
  intros tc run.
  destruct (passes_iff_expectations_met sample_env tc (answer 200 "hello" None)
              (fresh_state ∅)) as [Hiff Hpass].
  - reflexivity.
  - reflexivity.
  - intros want Hwant. discriminate Hwant.
  - intros p Hp. discriminate Hp.
  - assert (Hf : failed run.2 = false).
    { apply Hiff. repeat split.
      + right. reflexivity.
      + intros k v Hkv.
        change ((∅ : gmap string string) !! k = Some v) in Hkv.
        rewrite lookup_empty in Hkv. discriminate Hkv.
      + intros want [= <-]. reflexivity.
      + intros want Hwant. discriminate Hwant. }
    destruct (Hpass Hf) as [Hret Hout]. repeat split; assumption.
Defined.

(** X4.  The order in which the Go runtime ranges over the expected
    headers changes neither the outcome of the test function, nor
    whether the test has failed, nor the objects, nor the number of log
    entries; without fail-fast the log is the same up to the order of
    its entries. *)
Theorem header_order_is_immaterial (env : Env)
  (r : gmap string string -> list (string * string))
  (Hr : forall m, r m ≡ₚ map_to_list m)
  (tc : testCase) (resp : Response) (s : State) :
  let run := fn_assert env tc resp s in
  let run' := fn_assert (reorder env r Hr) tc resp s in
  run'.1 = run.1 /\ failed run'.2 = failed run.2 /\ heap run'.2 = heap run.2
  /\ length (output run'.2) = length (output run.2)
  /\ (fatalFailure tc = false -> output run'.2 ≡ₚ output run.2).
Proof.
  intros run run'. subst run run'.
  destruct (fn_assert_effect (reorder env r Hr) tc resp (heap s))
    as (p1 & k1 & g1 & p2 & k2 & g2 & p3 & k3 & g3 & p4 & k4 & g4
        & p5 & k5 & g5 & q5 & F1 & F2 & F3 & F4 & F5 & Fall).
  fn_assert_effects env tc resp (heap s).
  destruct (effect_unique _ _ _ _ _ _ _ _ _ _ F1 E1) as (-> & -> & -> & _).
  destruct (effect_unique _ _ _ _ _ _ _ _ _ _ F3 E3) as (-> & -> & -> & _).
  destruct (effect_unique _ _ _ _ _ _ _ _ _ _ F4 E4) as (-> & -> & -> & _).
  destruct (effect_unique _ _ _ _ _ _ _ _ _ _ F5 E5) as (-> & -> & -> & ->).
  destruct (effect_assert_headers (reorder env r Hr) tc resp (heap s))
    as (?o & ?l & ?f & F2' & S2 & M2).
  destruct (effect_unique _ _ _ _ _ _ _ _ _ _ F2' F2) as (-> & -> & -> & _).
  clear F2'.
  assert (Hsame : p2 = o2 /\ g2 = f2 /\ length k2 = length l2
                  /\ (fatalFailure tc = false -> k2 ≡ₚ l2)).
  { destruct R2 as [R2 R2'], S2 as [S2 S2'].
    destruct (decide (headers_ok tc resp)) as [H2|H2].
    - destruct (R2 H2) as (-> & -> & ->), (S2 H2) as (-> & -> & ->).
      repeat split; reflexivity.
    - destruct (R2' H2) as (-> & _ & -> & Hlen), (S2' H2) as (-> & _ & -> & Hlen').
      split; [reflexivity|]. split; [reflexivity|].
      destruct (fatalFailure tc) eqn:Hff.
      + split; [now rewrite Hlen, Hlen' | discriminate].
      + assert (Hp : k2 ≡ₚ l2).
        { rewrite (L2 eq_refl), (M2 eq_refl).
          apply (header_entries_Permutation env tc resp
                   (r (expectHeaders tc)) (range env (expectHeaders tc))).
          now rewrite Hr, (range_perm env). }
        split; [now rewrite Hp | now intros _]. }
  destruct Hsame as (-> & -> & Hlen & Hperm).
  rewrite (Fall s eq_refl), (Eall s eq_refl). cbn [fst snd output failed heap].
  split; [reflexivity|]. split; [reflexivity|]. split; [reflexivity|].
  unfold cut. destruct o1 as [[]| |v1], o2 as [[]| |v2]; split;
    try (intros Hff; rewrite ?(Hperm Hff); reflexivity);
    rewrite !length_app; cbn [length]; rewrite ?length_app; lia.
Qed.

Lemma header_order_is_immaterial_witness :
  let tc := set_expectHeaders sample_tc {[ "A" := "1"; "B" := "2" ]} in
  let env' := reorder sample_env (fun m => reverse (map_to_list m))
                (fun m => reverse_Permutation (map_to_list m)) in
  let run := fn_assert sample_env tc (answer 200 "" None) (fresh_state ∅) in
  let run' := fn_assert env' tc (answer 200 "" None) (fresh_state ∅) in
  failed run'.2 = failed run.2 /\ output run'.2 ≡ₚ output run.2.
Proof.
  intros tc env' run run'.
  destruct (header_order_is_immaterial sample_env
              (fun m => reverse (map_to_list m))
              (fun m => reverse_Permutation (map_to_list m))
              tc (answer 200 "" None) (fresh_state ∅))
    as (_ & Hf & _ & _ & Hp).
  split; [exact Hf | exact (Hp eq_refl)].
Defined.

(** X5.  A body that does not decode into the type of the expected
    value ends the test function at once, with or without fail-fast:
    the decoding error is the last entry of the log, the test has
    failed, and the capture that follows is not made. *)
Theorem structured_decode_error_is_fatal (env : Env) (tc : testCase)
  (resp : Response) (s : State) (want got : GoValue) (err : string) :
  expectJSON tc = Some want ->
  json_Unmarshal env (body_data (resp_Body resp))
    (reflect.Zero (reflect.TypeOf want)) = (got, Some err) ->
  fatalFailure tc = false
  \/ (code_ok tc resp /\ headers_ok tc resp /\ raw_ok tc resp) ->
  let run := fn_assert env tc resp s in
  run.1 = Goexit /\ failed run.2 = true
  /\ last (output run.2) = Some (Sprintln [err])
  /\ heap run.2 = heap s.
Proof.
  intros Hwant Hdec Hreach run. subst run.
  rewrite fn_assert_after_reading. unfold assertions.
  set (s1 := Build_State _ _ _).
  destruct (status_returns tc resp s1) as (s2 & Hs & _ & Hh2); [tauto|].
  destruct (headers_returns env tc resp s2) as (s3 & Hh & _ & Hh3); [tauto|].
  destruct (raw_returns tc resp s3) as (s4 & Hraw & _ & Hh4); [tauto|].
  erewrite bind_returns by exact Hs. erewrite bind_returns by exact Hh.
  erewrite bind_returns by exact Hraw.
  erewrite bind_goexit.
  2: { unfold assert_structured. rewrite Hwant, Hdec. reflexivity. }
  cbn. repeat split; [apply last_snoc|]. now rewrite Hh4, Hh3, Hh2.
Qed.

Lemma structured_decode_error_is_fatal_witness :
  let tc := set_grabOutput (set_expectJSON sample_tc (Some (VBool true)) [])
              (Some 0%nat) in
  let run := fn_assert sample_env tc (answer 200 "not json" None)
               (fresh_state {[ 0%nat := VBool false ]}) in
  run.1 = Goexit /\ failed run.2 = true
  /\ heap run.2 = {[ 0%nat := VBool false ]}.
Proof.
  intros tc run.
  destruct (structured_decode_error_is_fatal sample_env tc
              (answer 200 "not json" None)
              (fresh_state {[ 0%nat := VBool false ]})
              (VBool true) (VBool false)
              "json: cannot unmarshal into Go value of type bool")
    as (Ho & Hf & _ & Hh).
  - reflexivity.
  - reflexivity.
  - left. reflexivity.
  - repeat split; assumption.
Defined.

(** X6.  A capture target that is a nil pointer: when the run reaches
    the capture, the error of the decoder is fatal and no object is
    written. *)
Theorem capture_into_nil_is_fatal (env : Env) (tc : testCase) (resp : Response)
  (s : State) (p : nat) :
  grabOutput tc = Some p -> heap s !! p = None ->
  structured_decodes env tc resp ->
  fatalFailure tc = false
  \/ (code_ok tc resp /\ headers_ok tc resp /\ raw_ok tc resp
      /\ structured_ok env tc resp) ->
  let run := fn_assert env tc resp s in
  run.1 = Goexit /\ failed run.2 = true
  /\ last (output run.2) = Some (Sprintln [InvalidUnmarshalError env])
  /\ heap run.2 = heap s.
Proof.
  intros Hp Hnil Hdec Hreach run. subst run.
  rewrite fn_assert_after_reading. unfold assertions.
  set (s1 := Build_State _ _ _).
  destruct (status_returns tc resp s1) as (s2 & Hs & _ & Hh2); [tauto|].
  destruct (headers_returns env tc resp s2) as (s3 & Hh & _ & Hh3); [tauto|].
  destruct (raw_returns tc resp s3) as (s4 & Hraw & _ & Hh4); [tauto|].
  destruct (structured_returns env tc resp s4 Hdec) as (s5 & Hj & _ & Hh5); [tauto|].
  erewrite bind_returns by exact Hs. erewrite bind_returns by exact Hh.
  erewrite bind_returns by exact Hraw. erewrite bind_returns by exact Hj.
  assert (Hheap : heap s5 = heap s) by (rewrite Hh5, Hh4, Hh3, Hh2; reflexivity).
  unfold capture. rewrite Hp, Hheap, Hnil. cbn.
  repeat split; [apply last_snoc | exact Hheap].
Qed.

Lemma capture_into_nil_is_fatal_witness :
  let tc := set_grabOutput sample_tc (Some 7%nat) in
  let run := fn_assert sample_env tc (answer 200 "true" None) (fresh_state ∅) in
  run.1 = Goexit /\ failed run.2 = true.
Proof.
  intros tc run.
  destruct (capture_into_nil_is_fatal sample_env tc (answer 200 "true" None)
              (fresh_state ∅) 7%nat) as (Ho & Hf & _).
  - reflexivity.
  - reflexivity.
  - intros want Hwant. discriminate Hwant.
  - left. reflexivity.
  - split; assumption.
Defined.

(** ** The options and [Test] *)

Lemma provided_keeps (env : Env) (o : TestOption) (tc tc' : testCase) :
  provided env o -> o tc = Done tc' ->
  method tc' = method tc /\ path tc' = path tc /\ server tc' = server tc.
Proof.
  intros Ho Happ. destruct Ho; try (injection Happ as <-; now repeat split).
  unfold WithJSONInput in Happ.
  destruct (json_Marshal env _); [|discriminate Happ].
  injection Happ as <-. now repeat split.
Qed.

Lemma apply_opts_keeps (env : Env) (opts : list TestOption) (tc tc' : testCase) :
  Forall (provided env) opts -> apply_opts opts tc = Done tc' ->
  method tc' = method tc /\ path tc' = path tc /\ server tc' = server tc.
Proof.
  intros Hopts. revert tc. induction Hopts as [|o opts Ho _ IH]; intros tc Happ.
  - injection Happ as <-. now repeat split.
  - cbn in Happ. destruct (o tc) as [tc1|v] eqn:Ho1; [|discriminate Happ].
    destruct (provided_keeps env o tc tc1 Ho Ho1) as (Hm & Hp & Hs).
    destruct (IH tc1 Happ) as (Hm' & Hp' & Hs').
    repeat split; congruence.
Qed.

(** X7.  The options are applied from left to right, and a panic of one
    of them leaves the later ones unapplied. *)
Theorem apply_opts_app (opts1 opts2 : list TestOption) (tc : testCase) :
  apply_opts (opts1 ++ opts2) tc =
  match apply_opts opts1 tc with
  | Done tc' => apply_opts opts2 tc'
  | Panicked v => Panicked v
  end.
Proof.
  revert tc. induction opts1 as [|o opts1 IH]; intros tc; [reflexivity|].
  cbn. destruct (o tc) as [tc1|v]; [apply IH | reflexivity].
Qed.

(** X8.  No option of the package changes the method, the path or the
    server.  So when [http.NewRequest] refuses the method or the URL,
    or when the client of the server fails on every request, the test
    function of [Test] logs that error and is left, whatever the options
    and the expectations: nothing is asserted. *)
Theorem Test_fatal_before_response (env : Env) (h : HTTP) (method path : string)
  (opts : list TestOption) (run : Run unit) (err : string) :
  Forall (provided env) opts ->
  Test env h method path opts = Done run ->
  NewRequest_check env (if String.eqb method "" then "GET" else method)
    (URL (Server_ h) +:+ path) = Some err
  \/ (NewRequest_check env (if String.eqb method "" then "GET" else method)
        (URL (Server_ h) +:+ path) = None
      /\ forall c r, Client_Do (Server_ h) c r = inr err) ->
  forall s, run s = (Goexit, failing (logged s [Sprintln [err]])).
Proof.
  intros Hopts Htest Hfatal s. unfold Test in Htest.
  destruct (apply_opts opts (new_testCase h method path)) as [tc|v] eqn:Happ;
    [|discriminate Htest].
  injection Htest as <-.
  destruct (apply_opts_keeps env opts _ tc Hopts Happ) as (Hm & Hp & Hs).
  cbn in Hm, Hp, Hs. unfold fn. cbn zeta.
  rewrite fn_request_eval. cbn zeta. rewrite Hm, Hp, Hs.
  destruct Hfatal as [-> | [-> Hdo]]; [reflexivity|].
  now rewrite Hdo.
Qed.

Lemma Test_fatal_before_response_witness :
  let h := New {| URL := "http://127.0.0.1:1"; Server_Client := {| client_Jar := None |};
                  Client_Do := fun _ _ => inr "connection refused" |} in
  exists run,
    Test sample_env h "GET" "/" [ExpectStatusCode 200; FatalFailure] = Done run
    /\ forall s, run s = (Goexit, failing (logged s [Sprintln ["connection refused"]])).
Proof.
  intros h. eexists. split; [reflexivity|].
  apply (Test_fatal_before_response sample_env h "GET" "/"
           [ExpectStatusCode 200; FatalFailure]).
  - repeat constructor.
  - reflexivity.
  - right. split; reflexivity.
Defined.

(** X9.  [Test] panics only through [WithJSONInput]: when the encoder
    accepts every reader, a list of options of the package always
    yields a test function. *)
Theorem Test_yields_a_test_function (env : Env) (h : HTTP) (method path : string)
  (opts : list TestOption) :
  Forall (provided env) opts ->
  (forall r, exists raw, json_Marshal env (any_of_Reader r) = inl raw) ->
  exists run, Test env h method path opts = Done run.
Proof.
  intros Hopts Hjson. unfold Test.
  assert (H : forall tc, exists tc', apply_opts opts tc = Done tc').
  { induction Hopts as [|o opts Ho _ IH]; intros tc; [now exists tc|].
    cbn. assert (Ho1 : exists tc1, o tc = Done tc1).
    { destruct Ho; try (eexists; reflexivity).
      unfold WithJSONInput. destruct (Hjson (input tc)) as (raw & ->).
      eexists. reflexivity. }
    destruct Ho1 as (tc1 & ->). apply IH. }
  destruct (H (new_testCase h method path)) as (tc & ->). now eexists.
Qed.

Lemma Test_yields_a_test_function_witness :
  exists run,
    Test sample_env (New (serving (answer 200 "" None))) "POST" "/"
      [WithInput (Some (strings_NewReader "x"));
       WithJSONInput sample_env any_nil] = Done run.
Proof.
  apply Test_yields_a_test_function.
  - repeat constructor.
  - intros [r|]; eexists; reflexivity.
Defined.

(** X10.  [ExpectHeader] writes one entry of the expected headers and
    leaves the others; given twice for one name, the second value
    replaces the first; given for two names, the order does not
    matter. *)
Theorem ExpectHeader_insert (tc : testCase) (n n' v1 v2 v' : string) :
  n <> n' ->
  (exists tc1, ExpectHeader n v1 tc = Done tc1
               /\ expectHeaders tc1 !! n = Some v1
               /\ expectHeaders tc1 !! n' = expectHeaders tc !! n')
  /\ apply_opts [ExpectHeader n v1; ExpectHeader n v2] tc
     = apply_opts [ExpectHeader n v2] tc
  /\ apply_opts [ExpectHeader n v1; ExpectHeader n' v'] tc
     = apply_opts [ExpectHeader n' v'; ExpectHeader n v1] tc.
Proof.
  intros Hne. split; [|split].
  - eexists. split; [reflexivity|]. cbn.
    split; [apply lookup_insert_eq | now apply lookup_insert_ne].
  - cbn. unfold set_expectHeaders. cbn. now rewrite insert_insert_eq.
  - cbn. unfold set_expectHeaders. cbn. f_equal. f_equal.
    now apply insert_insert_ne.
Qed.

Lemma ExpectHeader_insert_witness :
  apply_opts [ExpectHeader "A" "1"; ExpectHeader "B" "2"] sample_tc
  = apply_opts [ExpectHeader "B" "2"; ExpectHeader "A" "1"] sample_tc.
Proof.
  apply (ExpectHeader_insert sample_tc "A" "B" "1" "1" "2"). discriminate.
Defined.

(** X11.  The names of expected headers are kept as they are given, and
    compared with the response by their canonical form: two
    expectations whose names differ but have one canonical form, with
    different values, cannot both be met, and every run fails. *)
Theorem ExpectHeader_two_spellings_conflict (env : Env) (tc tc2 : testCase)
  (resp : Response) (s : State) (n1 n2 v1 v2 : string) :
  n1 <> n2 -> http.CanonicalHeaderKey n1 = http.CanonicalHeaderKey n2 ->
  v1 <> v2 ->
  apply_opts [ExpectHeader n1 v1; ExpectHeader n2 v2] tc = Done tc2 ->
  expectHeaders tc2 !! n1 = Some v1 /\ expectHeaders tc2 !! n2 = Some v2
  /\ failed (fn_assert env tc2 resp s).2 = true.
Proof.
  intros Hne Hcanon Hv Happ. cbn in Happ. injection Happ as <-.
  assert (H1 : expectHeaders (set_expectHeaders
                 (set_expectHeaders tc (<[n1:=v1]> (expectHeaders tc)))
                 (<[n2:=v2]> (<[n1:=v1]> (expectHeaders tc)))) !! n1 = Some v1).
  { cbn. rewrite lookup_insert_ne by congruence. apply lookup_insert_eq. }
  assert (H2 : expectHeaders (set_expectHeaders
                 (set_expectHeaders tc (<[n1:=v1]> (expectHeaders tc)))
                 (<[n2:=v2]> (<[n1:=v1]> (expectHeaders tc)))) !! n2 = Some v2).
  { cbn. apply lookup_insert_eq. }
  split; [exact H1|]. split; [exact H2|].
  set (tc2 := set_expectHeaders _ _) in *.
  assert (Hbad : ~ headers_ok tc2 resp).
  { intros Hok. apply Hv.
    pose proof (Hok n1 v1 H1) as G1. pose proof (Hok n2 v2 H2) as G2.
    unfold header_ok, http.Header_Get in G1, G2. cbn [fst snd] in G1, G2.
    unfold http.CanonicalHeaderKey in Hcanon. rewrite Hcanon in G1. congruence. }
  fn_assert_effects env tc2 resp (heap s).
  rewrite (Eall s eq_refl). cbn [snd failed].
  destruct R2 as [_ R2]. destruct (R2 Hbad) as (_ & _ & -> & _).
  destruct R1 as [R1 R1']. destruct (decide (code_ok tc2 resp)) as [Hc|Hc].
  - destruct (R1 Hc) as (-> & _ & ->). cbn. now rewrite !orb_true_r.
  - destruct (R1' Hc) as (_ & _ & -> & _). cbn. now rewrite !orb_true_r.
Qed.

Lemma ExpectHeader_two_spellings_conflict_witness :
  exists tc2,
    apply_opts [ExpectHeader "content-type" "text/plain";
                ExpectHeader "Content-Type" "text/html"] sample_tc = Done tc2
    /\ failed (fn_assert sample_env tc2 (answer 200 "" None) (fresh_state ∅)).2
       = true.
Proof.
  eexists. split; [reflexivity|].
  apply (ExpectHeader_two_spellings_conflict sample_env sample_tc _
           (answer 200 "" None) (fresh_state ∅)
           "content-type" "Content-Type" "text/plain" "text/html");
    [discriminate | reflexivity | discriminate | reflexivity].
Defined.

(** ** Request headers and bodies *)

Lemma Header_update_comm (h : Header) (k1 k2 : string)
  (F1 F2 : list string -> list string) :
  k1 <> k2 ->
  <[k2 := F2 (http.values (<[k1 := F1 (http.values h k1)]> h) k2)]>
    (<[k1 := F1 (http.values h k1)]> h)
  = <[k1 := F1 (http.values (<[k2 := F2 (http.values h k2)]> h) k1)]>
      (<[k2 := F2 (http.values h k2)]> h).
Proof.
  intros Hne. unfold http.values.
  rewrite !lookup_insert_ne by congruence. now apply insert_insert_ne.
Qed.

(** The mutator that [WithHeader] queues, as an update of one key. *)
Lemma WithHeader_eval (name value : string) (tc : testCase) :
  exists mut F,
    WithHeader name value tc = Done (set_mutateReq tc (mutateReq tc ++ [mut]))
    /\ (F = (fun _ => [value]) \/ F = (fun l => l ++ [value]))
    /\ (http.CanonicalHeaderKey name = "Content-Type" -> F = (fun _ => [value]))
    /\ (http.CanonicalHeaderKey name <> "Content-Type" -> F = (fun l => l ++ [value]))
    /\ forall r,
         mut r = {| req_Method := req_Method r; req_URL := req_URL r;
                    req_Header :=
                      <[http.CanonicalHeaderKey name :=
                          F (http.values (req_Header r) (http.CanonicalHeaderKey name))]>
                        (req_Header r);
                    req_Body := req_Body r |}.
Proof.
  unfold WithHeader.
  destruct (String.eqb_spec (http.CanonicalHeaderKey name) "Content-Type") as [E|E].
  - eexists _, (fun _ => [value]). split; [reflexivity|].
    split; [now left|]. split; [now intros _|]. split; [now intros H|].
    intros r. reflexivity.
  - eexists _, (fun l => l ++ [value]). split; [reflexivity|].
    split; [now right|]. split; [now intros H|]. split; [now intros _|].
    intros r. reflexivity.
Qed.

Lemma fn_request_more (env : Env) (tc : testCase) (req0 : Request)
  (muts : list (Request -> Request)) :
  fn_request env tc = inl req0 ->
  fn_request env (set_mutateReq tc (mutateReq tc ++ muts))
  = inl (foldl (fun req mut => mut req) req0 muts).
Proof.
  rewrite !fn_request_eval. cbn.
  destruct (NewRequest_check env _ _); [discriminate|].
  intros [= <-]. now rewrite foldl_app.
Qed.

(** X12.  A header set by [WithHeader] is read back under the same
    name, whatever its spelling, when the name is a Content-Type or the
    request had no value for it; the method, the URL, the body and the
    other headers of the request are those it had. *)
Theorem WithHeader_then_Get (env : Env) (tc : testCase) (name value : string)
  (req0 : Request) :
  fn_request env tc = inl req0 ->
  http.CanonicalHeaderKey name = "Content-Type"
  \/ http.values (req_Header req0) (http.CanonicalHeaderKey name) = [] ->
  exists tc' req,
    WithHeader name value tc = Done tc'
    /\ fn_request env tc' = inl req
    /\ http.Header_Get (req_Header req) name = value
    /\ (forall k, k <> http.CanonicalHeaderKey name ->
                  req_Header req !! k = req_Header req0 !! k)
    /\ req_Method req = req_Method req0 /\ req_URL req = req_URL req0
    /\ req_Body req = req_Body req0.
Proof.
  intros Hreq Hcase.
  destruct (WithHeader_eval name value tc) as (mut & F & Happ & _ & Hset & Hadd & Hmut).
  eexists _, _. split; [exact Happ|].
  split; [apply (fn_request_more env tc req0 [mut] Hreq)|].
  cbn [foldl]. rewrite Hmut. cbn [req_Header req_Method req_URL req_Body].
  split; [|split; [|now repeat split]].
  - unfold http.Header_Get. fold (http.CanonicalHeaderKey name).
    rewrite values_insert_eq.
    destruct (decide (http.CanonicalHeaderKey name = "Content-Type")) as [E|E].
    + now rewrite (Hset E).
    + rewrite (Hadd E). destruct Hcase as [H|H]; [contradiction|]. now rewrite H.
  - intros k Hk. now apply lookup_insert_ne.
Qed.

Lemma WithHeader_then_Get_witness :
  exists tc' req,
    WithHeader "x-api-key" "s3cret" sample_tc = Done tc'
    /\ fn_request sample_env tc' = inl req
    /\ http.Header_Get (req_Header req) "x-api-key" = "s3cret".
Proof.
  destruct (WithHeader_then_Get sample_env sample_tc "x-api-key" "s3cret"
              {| req_Method := "POST"; req_URL := "http://127.0.0.1:8080/greet";
                 req_Header := ∅; req_Body := None |})
    as (tc' & req & H1 & H2 & H3 & _).
  - reflexivity.
  - right. reflexivity.
  - exists tc', req. repeat split; assumption.
Defined.

(** X13.  Two [WithHeader] for names of different canonical forms build
    the same request in either order. *)
Theorem WithHeader_commute (env : Env) (tc : testCase) (n1 v1 n2 v2 : string) :
  http.CanonicalHeaderKey n1 <> http.CanonicalHeaderKey n2 ->
  exists tc12 tc21,
    apply_opts [WithHeader n1 v1; WithHeader n2 v2] tc = Done tc12
    /\ apply_opts [WithHeader n2 v2; WithHeader n1 v1] tc = Done tc21
    /\ fn_request env tc12 = fn_request env tc21.
Proof.
  intros Hne.
  destruct (WithHeader_eval n1 v1 tc) as (m1 & F1 & Ha1 & _ & _ & _ & Hm1).
  destruct (WithHeader_eval n2 v2 (set_mutateReq tc (mutateReq tc ++ [m1])))
    as (m2 & F2 & Ha2 & _ & _ & _ & Hm2).
  destruct (WithHeader_eval n2 v2 tc) as (m2' & F2' & Hb2 & _ & _ & _ & Hm2').
  destruct (WithHeader_eval n1 v1 (set_mutateReq tc (mutateReq tc ++ [m2'])))
    as (m1' & F1' & Hb1 & _ & _ & _ & Hm1').
  eexists _, _. cbn [apply_opts]. rewrite Ha1, Ha2, Hb2, Hb1.
  split; [reflexivity|]. split; [reflexivity|].
  rewrite !fn_request_eval. cbn.
  destruct (NewRequest_check env _ _); [reflexivity|].
  rewrite <- !app_assoc, !foldl_app. cbn [foldl app]. f_equal.
  assert (E1 : forall r, m1' r = m1 r).
  { intros r. rewrite Hm1, Hm1'.
    unfold WithHeader in Ha1, Hb1. injection Ha1 as Ha1. injection Hb1 as Hb1.
    apply app_inj_tail in Ha1 as [_ Ha1]. apply app_inj_tail in Hb1 as [_ Hb1].
    rewrite <- Hm1, <- Hm1', <- Ha1, <- Hb1. reflexivity. }
  assert (E2 : forall r, m2' r = m2 r).
  { intros r. rewrite Hm2, Hm2'.
    unfold WithHeader in Ha2, Hb2. injection Ha2 as Ha2. injection Hb2 as Hb2.
    apply app_inj_tail in Ha2 as [_ Ha2]. apply app_inj_tail in Hb2 as [_ Hb2].
    rewrite <- Hm2, <- Hm2', <- Ha2, <- Hb2. reflexivity. }
  rewrite E1, E2, Hm2, Hm1. rewrite (Hm1 (m2 _)), Hm2.
  cbn [req_Header req_Method req_URL req_Body]. f_equal.
  now apply Header_update_comm.
Qed.

Lemma WithHeader_commute_witness :
  exists tc12 tc21,
    apply_opts [WithHeader "Accept" "text/html"; WithHeader "Content-Type" "text/csv"]
      sample_tc = Done tc12
    /\ apply_opts [WithHeader "Content-Type" "text/csv"; WithHeader "Accept" "text/html"]
         sample_tc = Done tc21
    /\ fn_request sample_env tc12 = fn_request sample_env tc21.
Proof.
  apply (WithHeader_commute sample_env sample_tc). discriminate.
Defined.

(** X14.  The body is that of the last option that sets one, but the
    mutators of the earlier ones stay queued: after [WithFormInput] and
    then [WithInput] the request of a fresh test case carries the reader
    of [WithInput] under the form Content-Type. *)
Theorem WithInput_after_WithFormInput (env : Env) (h : HTTP) (method path : string)
  (values : url.Values) (r : option Reader) :
  NewRequest_check env (if String.eqb method "" then "GET" else method)
    (URL (Server_ h) +:+ path) = None ->
  exists tc req,
    apply_opts [WithFormInput values; WithInput r] (new_testCase h method path)
    = Done tc
    /\ input tc = r
    /\ fn_request env tc = inl req
    /\ req_Body req = r
    /\ http.Header_Get (req_Header req) "Content-Type"
       = "application/x-www-form-urlencoded".
Proof.
  intros Hcheck. eexists _, _. split; [reflexivity|]. split; [reflexivity|].
  rewrite fn_request_eval. cbn. rewrite Hcheck.
  split; [reflexivity|]. split; reflexivity.
Qed.

Lemma WithInput_after_WithFormInput_witness :
  exists tc req,
    apply_opts [WithFormInput {[ "name" := ["greg"] ]};
                WithInput (Some (strings_NewReader "raw"))]
      (new_testCase (New (serving (answer 200 "" None))) "POST" "/greet")
    = Done tc
    /\ fn_request sample_env tc = inl req
    /\ req_Body req = Some (strings_NewReader "raw")
    /\ http.Header_Get (req_Header req) "Content-Type"
       = "application/x-www-form-urlencoded".
Proof.
  destruct (WithInput_after_WithFormInput sample_env
              (New (serving (answer 200 "" None))) "POST" "/greet"
              {[ "name" := ["greg"] ]} (Some (strings_NewReader "raw")) eq_refl)
    as (tc & req & H1 & _ & H2 & H3 & H4).
  exists tc, req. repeat split; assumption.
Defined.

Lemma append_not_empty (a b : string) : b <> "" -> a +:+ b <> "".
Proof. intros Hb. destruct a; [exact Hb | discriminate]. Qed.

Lemma length_pos (a : string) : a <> "" -> (0 <? Z.of_nat (String.length a)) = true.
Proof.
  destruct a; [now intros H|]. intros _. apply Z.ltb_lt.
  cbn [String.length]. lia.
Qed.

Lemma encode_key_more (keyEscaped buf : string) (vs : list string) :
  buf <> "" ->
  url.encode_key keyEscaped buf vs = buf +:+ more_pairs keyEscaped vs.
Proof.
  revert buf. induction vs as [|v vs IH]; intros buf Hbuf.
  - cbn. now rewrite append_nil_r.
  - unfold url.encode_key in *. cbn [foldl more_pairs foldr].
    rewrite (length_pos buf Hbuf). rewrite IH.
    + fold (more_pairs keyEscaped vs). now rewrite !append_assoc.
    + first [ do 2 apply append_not_empty; discriminate
            | apply append_not_empty; discriminate ].
Qed.

(** X15.  The body of [WithFormInput] for a form of one key: the
    escaped key, [=] and the escaped value for each of its values in
    their order, joined by [&]; a key without values, like the empty
    form, gives the empty body. *)
Theorem WithFormInput_one_key (tc : testCase) (k v : string) (vs : list string) :
  (exists tc', WithFormInput {[ k := v :: vs ]} tc = Done tc'
     /\ input tc' = Some (strings_NewReader
          (url.QueryEscape k +:+ "=" +:+ url.QueryEscape v
           +:+ more_pairs (url.QueryEscape k) vs)))
  /\ (exists tc', WithFormInput {[ k := [] ]} tc = Done tc'
        /\ input tc' = Some (strings_NewReader ""))
  /\ (exists tc', WithFormInput ∅ tc = Done tc'
        /\ input tc' = Some (strings_NewReader "")).
Proof.
  assert (Hone : forall l, url.Values_Encode {[ k := l ]}
                           = url.encode_key (url.QueryEscape k) "" l).
  { intros l. unfold url.Values_Encode. rewrite map_to_list_singleton.
    cbn. now rewrite lookup_singleton_eq. }
  split; [|split].
  - eexists. split; [reflexivity|]. cbn. rewrite Hone.
    change (url.encode_key (url.QueryEscape k) "" (v :: vs))
      with (url.encode_key (url.QueryEscape k)
              (url.QueryEscape k +:+ "=" +:+ url.QueryEscape v) vs).
    rewrite encode_key_more.
    + now rewrite !append_assoc.
    + apply append_not_empty. discriminate.
  - eexists. split; [reflexivity|]. cbn. now rewrite Hone.
  - eexists. split; [reflexivity|]. cbn. unfold url.Values_Encode.
    now rewrite map_to_list_empty.
Qed.

(** ** The comparison options *)

Lemma Type_eqb_refl : forall t, reflect.Type_eqb t t = true.
Proof.
  fix IH 1. intros t. destruct t as [| | |fs]; try reflexivity.
  cbn. revert fs. fix IHfs 1. intros [|[n t] fs]; [reflexivity|].
  cbn. rewrite String.eqb_refl, (IH t), (IHfs fs). reflexivity.
Qed.

Lemma tryOptions_NotEmpty_root (name : string) (x y : GoValue) :
  name <> "" -> cmp.tryOptions [NotEmpty name] [] x y = None.
Proof.
  intros Hname. unfold cmp.tryOptions, NotEmpty.
  cbn [cmp.Options_filter cmp.Option_filter]. rewrite Path_String_root.
  destruct (String.eqb_spec "" name) as [E|E]; [now contradiction Hname|].
  reflexivity.
Qed.

Lemma tryOptions_NotEmpty_field (name : string) (x y : GoValue) :
  cmp.tryOptions [NotEmpty name] [name] x y
  = if (not_zero x && not_zero y)%bool then Some (cmp.Reports true) else None.
Proof.
  unfold cmp.tryOptions, NotEmpty. cbn [cmp.Options_filter cmp.Option_filter].
  rewrite Path_String_field, String.eqb_refl. fold (not_zero x). fold (not_zero y).
  now destruct (not_zero x && not_zero y)%bool.
Qed.

(** X16.  [NotEmpty] on a field that holds a boolean, an integer or a
    string: the two structs are reported equal when both values differ
    from the zero value, and otherwise exactly when the values are
    equal; so two zero values pass, and one zero value against another
    value does not. *)
Theorem NotEmpty_on_a_leaf (name : string) (x y : GoValue) :
  name <> "" -> is_leaf x = true -> is_leaf y = true ->
  reflect.TypeOf x = reflect.TypeOf y ->
  cmp.Equal (VStruct [(name, x)]) (VStruct [(name, y)]) [NotEmpty name]
  = cmp.Reports ((not_zero x && not_zero y) || reflect.DeepEqual x y).
Proof.
  intros Hname Hx Hy Hty. unfold cmp.Equal.
  cbn [reflect.TypeOf map fst snd]. rewrite Hty, Type_eqb_refl.
  cbn [cmp.compareAny]. rewrite (tryOptions_NotEmpty_root name _ _ Hname).
  cbn [fst snd app].
  destruct x as [a|a|a|?], y as [b|b|b|?]; try discriminate;
    cbn [cmp.compareAny]; rewrite tryOptions_NotEmpty_field;
    destruct (not_zero _ && not_zero _)%bool; cbn [cmp.both orb];
    cbn [reflect.DeepEqual]; now rewrite ?andb_true_r.
Qed.

Lemma NotEmpty_on_a_leaf_witness :
  cmp.Equal (VStruct [("Count", VInt 0)]) (VStruct [("Count", VInt 0)])
    [NotEmpty "Count"] = cmp.Reports true
  /\ cmp.Equal (VStruct [("Count", VInt 3)]) (VStruct [("Count", VInt 4)])
       [NotEmpty "Count"] = cmp.Reports true
  /\ cmp.Equal (VStruct [("Count", VInt 0)]) (VStruct [("Count", VInt 4)])
       [NotEmpty "Count"] = cmp.Reports false.
Proof.
  split; [|split].
  - apply (NotEmpty_on_a_leaf "Count" (VInt 0) (VInt 0)); [discriminate | reflexivity..].
  - apply (NotEmpty_on_a_leaf "Count" (VInt 3) (VInt 4)); [discriminate | reflexivity..].
  - apply (NotEmpty_on_a_leaf "Count" (VInt 0) (VInt 4)); [discriminate | reflexivity..].
Defined.

Lemma tryOptions_IgnoreField (name : string) (p : cmp.Path) (x y : GoValue) :
  cmp.tryOptions [IgnoreField name] p x y
  = if String.eqb (cmp.Path_String p) name then Some (cmp.Reports true) else None.
Proof.
  unfold cmp.tryOptions, IgnoreField. cbn [cmp.Options_filter cmp.Option_filter].
  now destruct (String.eqb (cmp.Path_String p) name).
Qed.

(** X17.  [IgnoreField] takes the field of its name out of the
    comparison, whatever it holds on either side, and leaves the other
    fields in: two structs that differ in the ignored field are reported
    equal exactly when the other field is. *)
Theorem IgnoreField_ignores_that_field (name other : string) (x y : GoValue)
  (a b : string) :
  name <> "" -> other <> name ->
  reflect.TypeOf x = reflect.TypeOf y ->
  cmp.Equal (VStruct [(name, x); (other, VString a)])
            (VStruct [(name, y); (other, VString b)]) [IgnoreField name]
  = cmp.Reports (String.eqb a b).
Proof.
  intros Hname Hother Hty. unfold cmp.Equal.
  cbn [reflect.TypeOf map fst snd]. rewrite Hty, Type_eqb_refl.
  cbn [cmp.compareAny]. rewrite tryOptions_IgnoreField, Path_String_root.
  destruct (String.eqb_spec "" name) as [E|_]; [now contradiction Hname|].
  cbn [fst snd app].
  assert (H1 : cmp.compareAny [IgnoreField name] [name] x y = cmp.Reports true).
  { destruct x; cbn [cmp.compareAny];
      now rewrite tryOptions_IgnoreField, Path_String_field, String.eqb_refl. }
  rewrite H1. cbn [cmp.compareAny].
  rewrite tryOptions_IgnoreField, Path_String_field.
  destruct (String.eqb_spec other name) as [E|_]; [now contradiction Hother|].
  cbn [cmp.both andb]. now rewrite andb_true_r.
Qed.

Lemma IgnoreField_ignores_that_field_witness :
  cmp.Equal (VStruct [("Time", VInt 1); ("Msg", VString "hello")])
            (VStruct [("Time", VInt 2); ("Msg", VString "hello")])
    [IgnoreField "Time"] = cmp.Reports true.
Proof.
  apply (IgnoreField_ignores_that_field "Time" "Msg" (VInt 1) (VInt 2) "hello" "hello");
    [discriminate | discriminate | reflexivity].
Defined.

(** X18.  Two [NotEmpty] on one field make the engine panic when both
    values are non-empty strings, the two comparers being both
    applicable; with an [IgnoreField] on the same field, before or
    after, the field is ignored and nothing panics. *)
Theorem NotEmpty_twice_is_ambiguous (env : Env) (name a b : string) :
  name <> "" -> a <> "" -> b <> "" ->
  let x := VStruct [(name, VString a)] in
  let y := VStruct [(name, VString b)] in
  cmp.Equal x y [NotEmpty name; NotEmpty name]
  = cmp.Panics "ambiguous set of applicable options"
  /\ cmp_Diff env x y [NotEmpty name; NotEmpty name]
     = inr "ambiguous set of applicable options"
  /\ cmp.Equal x y [NotEmpty name; IgnoreField name] = cmp.Reports true
  /\ cmp.Equal x y [IgnoreField name; NotEmpty name] = cmp.Reports true.
Proof.
  intros Hname Ha Hb x y.
  assert (Hz : forall c, c <> "" ->
            negb (reflect.DeepEqual (VString c)
                    (reflect.Zero (reflect.TypeOf (VString c)))) = true).
  { intros c Hc. cbn [reflect.TypeOf reflect.Zero reflect.DeepEqual].
    destruct (String.eqb_spec c ""); [contradiction | reflexivity]. }
  assert (Hroot : String.eqb (cmp.Path_String []) name = false).
  { rewrite Path_String_root.
    destruct (String.eqb_spec "" name) as [E|E]; [|reflexivity].
    now contradiction Hname. }
  assert (E1 : cmp.Equal x y [NotEmpty name; NotEmpty name]
               = cmp.Panics "ambiguous set of applicable options").
  { unfold cmp.Equal, x, y. cbn [reflect.TypeOf map fst snd].
    rewrite Type_eqb_refl. cbn [cmp.compareAny].
    unfold cmp.tryOptions, NotEmpty.
    cbn [cmp.Options_filter cmp.Option_filter]. rewrite Hroot.
    cbn [fst snd app cmp.compareAny].
    unfold cmp.tryOptions. cbn [cmp.Options_filter cmp.Option_filter].
    rewrite Path_String_field, String.eqb_refl, (Hz a Ha), (Hz b Hb).
    reflexivity. }
  split; [exact E1|]. split; [unfold cmp_Diff; now rewrite E1|]. split.
  - unfold cmp.Equal, x, y. cbn [reflect.TypeOf map fst snd].
    rewrite Type_eqb_refl. cbn [cmp.compareAny].
    unfold cmp.tryOptions, NotEmpty, IgnoreField.
    cbn [cmp.Options_filter cmp.Option_filter]. rewrite Hroot.
    cbn [fst snd app cmp.compareAny].
    unfold cmp.tryOptions. cbn [cmp.Options_filter cmp.Option_filter].
    rewrite Path_String_field, String.eqb_refl, (Hz a Ha), (Hz b Hb).
    reflexivity.
  - unfold cmp.Equal, x, y. cbn [reflect.TypeOf map fst snd].
    rewrite Type_eqb_refl. cbn [cmp.compareAny].
    unfold cmp.tryOptions, NotEmpty, IgnoreField.
    cbn [cmp.Options_filter cmp.Option_filter]. rewrite Hroot.
    cbn [fst snd app cmp.compareAny].
    unfold cmp.tryOptions. cbn [cmp.Options_filter cmp.Option_filter].
    rewrite Path_String_field, String.eqb_refl.
    reflexivity.
Qed.

Lemma NotEmpty_twice_is_ambiguous_witness :
  cmp.Equal (VStruct [("ID", VString "x")]) (VStruct [("ID", VString "y")])
    [NotEmpty "ID"; NotEmpty "ID"]
  = cmp.Panics "ambiguous set of applicable options".
Proof.
  apply (NotEmpty_twice_is_ambiguous sample_env "ID" "x" "y"); discriminate.
Defined.

(** ** The parsing helpers *)

(** X19.  [ParseHTML] and [ParseURL] return what the parser answers and
    touch neither the log nor the flag; on an error of the parser they
    fail the test at once, with one message that contains the error and
    the input. *)
Theorem Parse_helpers {Document URLT : Type}
  (NewDocumentFromReader : string -> Document * option string)
  (url_Parse : string -> URLT * option string) (input_ : string) (s : State) :
  match (NewDocumentFromReader input_).2 with
  | None => ParseHTML NewDocumentFromReader input_ s
            = (Returns (NewDocumentFromReader input_).1, s)
  | Some err =>
      exists msg,
        ParseHTML NewDocumentFromReader input_ s
        = (Goexit, failing (logged s [msg]))
        /\ occurs_in err msg /\ occurs_in input_ msg
  end
  /\ match (url_Parse input_).2 with
     | None => ParseURL url_Parse input_ s = (Returns (url_Parse input_).1, s)
     | Some err =>
         exists msg,
           ParseURL url_Parse input_ s = (Goexit, failing (logged s [msg]))
           /\ occurs_in err msg /\ occurs_in input_ msg
     end.
Proof.
  split.
  - unfold ParseHTML. destruct (NewDocumentFromReader input_) as [doc [err|]]; cbn.
    + eexists. split; [reflexivity|]. split.
      * apply occurs_in_append_r, occurs_in_head.
      * do 7 apply occurs_in_append_r. apply occurs_in_refl.
    + reflexivity.
  - unfold ParseURL. destruct (url_Parse input_) as [u [err|]]; cbn.
    + eexists. split; [reflexivity|]. split.
      * apply occurs_in_append_r, occurs_in_head.
      * do 3 apply occurs_in_append_r. apply occurs_in_refl.
    + reflexivity.
Qed.

(** ** Names and bytes *)

Lemma upperhex_query_byte (n : nat) : query_byte (url.upperhex n) = true.
Proof. do 16 (destruct n as [|n]; [reflexivity|]). reflexivity. Qed.

Lemma shouldEscape_query_byte (c : ascii) :
  url.shouldEscape c = false -> query_byte c = true.
Proof.
  unfold url.shouldEscape, query_byte.
  destruct (is_lower c || is_upper c || is_digit c)%bool; [reflexivity|].
  cbn [orb]. case_bool_decide as H; [|discriminate]. intros _.
  apply bool_decide_eq_true_2.
  repeat (apply elem_of_cons in H as [->|H]; [repeat constructor|]).
  now apply elem_of_nil in H.
Qed.

(** X20.  The body of a form never holds a byte of a key or a value
    that could be taken for a separator: an escaped component is made of
    letters, digits, [-], [_], [.], [~], [+] and [%] only, so the [&]
    and [=] of the body are those that [Encode] wrote. *)
Theorem QueryEscape_bytes (s : string) :
  all_bytes query_byte (url.QueryEscape s) = true.
Proof.
  induction s as [|c s IH]; [reflexivity|]. cbn [url.QueryEscape].
  destruct (url.shouldEscape c) eqn:Hesc.
  - destruct (Ascii.eqb c " "); cbn [all_bytes]; rewrite IH, ?upperhex_query_byte;
      reflexivity.
  - cbn [all_bytes]. now rewrite IH, (shouldEscape_query_byte c Hesc).
Qed.

Lemma case_of_letter (c : ascii) :
  (is_lower c = true -> is_lower (ascii_of_nat (nat_of_ascii c - toLower)) = false)
  /\ (is_upper c = true -> is_upper (ascii_of_nat (nat_of_ascii c + toLower)) = false).
Proof.
  destruct c as [[] [] [] [] [] [] [] []]; split; intros H;
    first [discriminate H | reflexivity].
Qed.

Lemma quick_check_canon_loop (key : string) (upper : bool) (a : string) :
  textproto.quick_check key upper (textproto.canon_loop upper a) = key.
Proof.
  revert upper. induction a as [|c a IH]; intros upper; [reflexivity|].
  cbn [textproto.canon_loop]. cbn zeta.
  set (c' := if (upper && is_lower c)%bool then _ else _).
  cbn [textproto.quick_check].
  destruct (negb (textproto.validHeaderFieldByte c')); [reflexivity|].
  assert (H1 : (upper && is_lower c')%bool = false).
  { subst c'. destruct upper; [|reflexivity]. cbn [andb negb].
    destruct (is_lower c) eqn:Hl; [now apply case_of_letter | exact Hl]. }
  assert (H2 : (negb upper && is_upper c')%bool = false).
  { subst c'. destruct upper; [reflexivity|]. cbn [andb negb].
    destruct (is_upper c) eqn:Hu; [now apply case_of_letter | exact Hu]. }
  rewrite H1, H2. apply IH.
Qed.

Lemma quick_check_cases (key : string) (upper : bool) (rest : string) :
  textproto.quick_check key upper rest = key
  \/ textproto.quick_check key upper rest = textproto.canon_loop true key.
Proof.
  revert upper. induction rest as [|c rest IH]; intros upper; [now left|].
  cbn [textproto.quick_check].
  destruct (negb (textproto.validHeaderFieldByte c)); [now left|].
  unfold textproto.canonicalMIMEHeaderKey.
  destruct (upper && is_lower c)%bool.
  { destruct (textproto.all_valid key); [now right | now left]. }
  destruct (negb upper && is_upper c)%bool.
  { destruct (textproto.all_valid key); [now right | now left]. }
  apply IH.
Qed.

Lemma CanonicalHeaderKey_idempotent (name : string) :
  http.CanonicalHeaderKey (http.CanonicalHeaderKey name)
  = http.CanonicalHeaderKey name.
Proof.
  unfold http.CanonicalHeaderKey, textproto.CanonicalMIMEHeaderKey.
  destruct (quick_check_cases name true name) as [E|E]; rewrite E.
  - exact E.
  - apply quick_check_canon_loop.
Qed.

Lemma header_ok_spelling (resp : Response) (name value : string) :
  header_ok resp (name, value)
  <-> header_ok resp (http.CanonicalHeaderKey name, value).
Proof.
  unfold header_ok, http.Header_Get. cbn [fst snd].
  pose proof (CanonicalHeaderKey_idempotent name) as Hid.
  unfold http.CanonicalHeaderKey in *. rewrite Hid. split; intros H; exact H.
Qed.

Lemma WithHeader_spelling (env : Env) (tc : testCase) (name value : string) :
  exists tc1 tc2,
    WithHeader name value tc = Done tc1
    /\ WithHeader (http.CanonicalHeaderKey name) value tc = Done tc2
    /\ fn_request env tc1 = fn_request env tc2.
Proof.
  pose proof (CanonicalHeaderKey_idempotent name) as Hid.
  destruct (WithHeader_eval name value tc) as (m1 & F1 & Ha & _ & S1 & A1 & Hm1).
  destruct (WithHeader_eval (http.CanonicalHeaderKey name) value tc)
    as (m2 & F2 & Hb & _ & S2 & A2 & Hm2).
  eexists _, _. split; [exact Ha|]. split; [exact Hb|].
  rewrite !fn_request_eval. cbn.
  destruct (NewRequest_check env _ _); [reflexivity|].
  rewrite !foldl_app. cbn [foldl]. f_equal.
  rewrite Hm1, Hm2, Hid. f_equal. f_equal.
  destruct (decide (http.CanonicalHeaderKey name = "Content-Type")) as [E|E].
  - rewrite (S1 E), (S2 (eq_trans Hid E)). reflexivity.
  - rewrite (A1 E), A2; [reflexivity|]. now rewrite Hid.
Qed.

(** X21.  The spelling of a header name is immaterial: the canonical
    form of a name is its own canonical form, an expected header is met
    by the same responses under its name and under the canonical form,
    and [WithHeader] builds the same request for both. *)
Theorem header_name_spelling (env : Env) (tc : testCase) (resp : Response)
  (name value : string) :
  http.CanonicalHeaderKey (http.CanonicalHeaderKey name)
  = http.CanonicalHeaderKey name
  /\ (header_ok resp (name, value)
      <-> header_ok resp (http.CanonicalHeaderKey name, value))
  /\ exists tc1 tc2,
       WithHeader name value tc = Done tc1
       /\ WithHeader (http.CanonicalHeaderKey name) value tc = Done tc2
       /\ fn_request env tc1 = fn_request env tc2.
Proof.
  split; [apply CanonicalHeaderKey_idempotent|].
  split; [apply header_ok_spelling | apply WithHeader_spelling].
Qed.

(** X22.  No option of the package takes back what an earlier one did
    to the failure policy or to the mutators: after a list of options
    that holds [FatalFailure], wherever it stands, the test case is
    fail-fast; and the mutators queued before an option are still
    queued after it, in their order and before the new ones. *)
Theorem options_only_add (env : Env) (opts : list TestOption) (tc tc' : testCase) :
  Forall (provided env) opts -> apply_opts opts tc = Done tc' ->
  (fatalFailure tc = true \/ FatalFailure ∈ opts -> fatalFailure tc' = true)
  /\ mutateReq tc `prefix_of` mutateReq tc'.
Proof.
  intros Hopts. revert tc. induction Hopts as [|o opts Ho _ IH]; intros tc Happ.
  - injection Happ as <-. split; [|reflexivity].
    intros [H|H]; [exact H | now apply elem_of_nil in H].
  - cbn in Happ. destruct (o tc) as [tc1|v] eqn:Ho1; [|discriminate Happ].
    destruct (IH tc1 Happ) as [Hff Hq].
    assert (Hset : o = FatalFailure -> fatalFailure tc1 = true).
    { intros E. rewrite E in Ho1. now injection Ho1 as <-. }
    assert (H1 : (fatalFailure tc = true -> fatalFailure tc1 = true)
                 /\ mutateReq tc `prefix_of` mutateReq tc1).
    { clear Hset. destruct Ho;
        try (injection Ho1 as <-; split;
             [now intros H | first [reflexivity | now apply prefix_app_r] ]).
      unfold WithJSONInput in Ho1.
      destruct (json_Marshal env _); [|discriminate Ho1].
      injection Ho1 as <-. split; [now intros H | now apply prefix_app_r]. }
    destruct H1 as (Hkeep & Hpre). split.
    + intros [H|H]; apply Hff.
      * left. now apply Hkeep.
      * apply elem_of_cons in H as [E|H]; [left; now apply Hset | now right].
    + etrans; eassumption.
Qed.

Lemma options_only_add_witness :
  exists tc',
    apply_opts [FatalFailure; ExpectStatusCode 200; WithHeader "A" "b"] sample_tc
    = Done tc'
    /\ fatalFailure tc' = true.
Proof.
  eexists. split; [reflexivity|].
  apply (options_only_add sample_env
           [FatalFailure; ExpectStatusCode 200; WithHeader "A" "b"] sample_tc).
  - repeat constructor.
  - reflexivity.
  - right. now left.
Defined.
